(** * jmpytools: the tabular import/export layer

    A shallow embedding of the format plugins of [DataLib/formats]
    ([_csv.py], [_json.py], [_yaml.py], [_xml.py], [_latex.py]) and of the
    ORM-backed table wrapper of [DataSet/dataset.py], with the properties
    that the repository's specification states about them.

    Python objects that are mutated in place (a [DataTable], a database
    table) are threaded explicitly through a small state-and-exception
    monad, so that the state left behind by a call that raises is part of
    the model. *)

From Stdlib Require Import ZArith Lia Ascii.
From stdpp Require Import base option list strings pretty gmap fin_maps.

Set Warnings "-clear-no-such-hyp".


(** ** Python exceptions *)

(** The exception classes that the modelled code raises, catches, or
    receives from the libraries it calls, with Python's class hierarchy. *)
Inductive exc_class :=
  | BaseException | KeyboardInterrupt
  | Exception
  | ValueError | TypeError | AttributeError
  | LookupError | KeyError | IndexError
  | RuntimeError | RecursionError | NotImplementedError
  | UnicodeDecodeError | JSONDecodeError
  | csv_Error
  | YAMLError | MarkedYAMLError | yaml_ReaderError | yaml_ScannerError
  | yaml_ParserError | yaml_ComposerError | yaml_ConstructorError
  (* DataLib/exceptions.py *)
  | InvalidDataTableType | InvalidDimensions | InvalidDataTableIndex
  | HeadersNeeded | UnsupportedFormat
  (* the ORM *)
  | IntegrityError | DoesNotExist.

#[global] Instance exc_class_eq_dec : EqDecision exc_class.
Proof. solve_decision. Defined.

(** The direct base class of each class. *)
Definition base_class (c : exc_class) : option exc_class :=
  match c with
  | BaseException => None
  | KeyboardInterrupt => Some BaseException
  | Exception => Some BaseException
  | ValueError | TypeError | AttributeError | LookupError | RuntimeError
  | csv_Error | YAMLError | IntegrityError | DoesNotExist => Some Exception
  | KeyError | IndexError => Some LookupError
  | RecursionError | NotImplementedError => Some RuntimeError
  | UnicodeDecodeError | JSONDecodeError => Some ValueError
  | MarkedYAMLError | yaml_ReaderError => Some YAMLError
  | yaml_ScannerError | yaml_ParserError | yaml_ComposerError
  | yaml_ConstructorError => Some MarkedYAMLError
  (* DataLib/exceptions.py *)
  | InvalidDataTableType | InvalidDimensions | InvalidDataTableIndex
  | HeadersNeeded => Some Exception
  | UnsupportedFormat => Some NotImplementedError
  end.

Fixpoint subclass_fuel (n : nat) (c d : exc_class) : bool :=
  if decide (c = d) then true
  else match n, base_class c with
       | S n', Some b => subclass_fuel n' b d
       | _, _ => false
       end.

(** [issubclass c d]; the hierarchy above is four levels deep. *)
Definition issubclass (c d : exc_class) : bool := subclass_fuel 4 c d.

Record exception := Exc { exc_type : exc_class; exc_msg : string }.

#[global] Instance exception_eq_dec : EqDecision exception.
Proof. solve_decision. Defined.

Definition isinstance (e : exception) (d : exc_class) : bool :=
  issubclass (exc_type e) d.

(** [except (c1, c2, ...)]: does the clause catch [e]? *)
Definition caught_by (e : exception) (cs : list exc_class) : bool :=
  existsb (isinstance e) cs.

(** The outcome of a call: a returned value or a raised exception. *)
Inductive py_result (A : Type) :=
  | Ok (a : A)
  | Raise (e : exception).
Arguments Ok {A} a.
Arguments Raise {A} e.

(** ** Mutable objects: state passing with exceptions

    [M S A] is a computation on a mutable object of type [S]: it yields an
    outcome and the object as the call left it, also when it raises. *)
Definition M (S A : Type) : Type := S → py_result A * S.

Definition ret {S A} (a : A) : M S A := λ s, (Ok a, s).
Definition raise {S A} (e : exception) : M S A := λ s, (Raise e, s).
Definition bind {S A B} (m : M S A) (k : A → M S B) : M S B :=
  λ s, match m s with
       | (Ok a, s') => k a s'
       | (Raise e, s') => (Raise e, s')
       end.
Definition gets {S A} (f : S → A) : M S A := λ s, (Ok (f s), s).
Definition modify {S} (f : S → S) : M S unit := λ s, (Ok tt, f s).

Notation "x ←' m ; k" := (bind m (λ x, k))
  (at level 100, m at next level, right associativity).
Notation "m ;;' k" := (bind m (λ _, k))
  (at level 100, right associativity).

Definition lift {S A} (r : py_result A) : M S A := λ s, (r, s).

(** [try: body except (classes): handler], for a body without effects on
    the program's own objects. *)
Definition try_except {A} (body : py_result A) (classes : list exc_class)
    (handler : py_result A) : py_result A :=
  match body with
  | Ok a => Ok a
  | Raise e => if caught_by e classes then handler else Raise e
  end.

(** ** Cell values *)

(** The scalar values a cell holds.  Floating-point numbers, decimals and
    timestamps are left out. *)
Inductive value :=
  | VNone
  | VBool (b : bool)
  | VInt (z : Z)
  | VStr (s : string).

#[global] Instance value_eq_dec : EqDecision value.
Proof. solve_decision. Defined.

(** Python truthiness, [if item]. *)
Definition truthy (v : value) : bool :=
  match v with
  | VNone => false
  | VBool b => b
  | VInt z => negb (z =? 0)%Z
  | VStr s => negb (String.eqb s "")
  end.

(** ** The DataTable container *)

Module DataTable.

(** The [DataTable] container class that the format plugins operate on
    ([wipe], [headers], [width], [append], [dict], the rows' [tags]) is
    not among the sources; this module models it. *)

(** Modelled from the spec: the rows of the missing [DataTable] class, a
    row being the ordered values of its cells, with its tags. *)
Record Row := mkRow { values : list value; tags : list string }.

(** Modelled from the spec: the missing [DataTable] class, the spec's
    Table: a title, a declared column list (the headers, which a table
    may lack) and an ordered collection of rows. *)
Record t := mk {
  title : string;
  headers : option (list string);
  _data : list Row
}.

(** Modelled from the spec: a new [DataTable], which has no content. *)
Definition empty : t := {| title := ""; headers := None; _data := [] |}.

(** Modelled from the spec: the missing property [DataTable.width], the
    number of columns: that of the first row, of the headers when there
    is no row, 0 when there is neither. *)
Definition width (d : t) : nat :=
  match _data d with
  | r :: _ => length (values r)
  | [] => match headers d with
          | Some h => length h
          | None => 0
          end
  end.

(** Modelled from the spec: the missing dimension check of [DataTable],
    every row being as wide as the table.  A non-empty row fits when the
    table has no width yet or the row has the table's width; for an empty
    one the stored rows are checked. *)
Definition _validate {A} (row : list A) (d : t) : bool :=
  match row with
  | _ :: _ => if Nat.eqb (width d) 0 then true
              else Nat.eqb (length row) (width d)
  | [] => forallb (λ r, Nat.eqb (length (values r)) (width d)) (_data d)
  end.

Definition invalid_dimensions : exception := Exc InvalidDimensions "".

(** Modelled from the spec: the missing method [DataTable.wipe], which
    removes the rows and the headers. *)
Definition wipe : M t unit :=
  modify (λ d, {| title := title d; headers := None; _data := [] |}).

(** Modelled from the spec: the missing setter of [DataTable.headers];
    headers of another width than the table's are refused with
    [InvalidDimensions] (DataLib/exceptions.py), empty ones mean none. *)
Definition set_headers (collection : list string) : M t unit :=
  λ d, if _validate collection d
       then (Ok tt, {| title := title d;
                       headers := match collection with
                                  | [] => None
                                  | _ => Some collection
                                  end;
                       _data := _data d |})
       else (Raise invalid_dimensions, d).

(** Modelled from the spec: the missing method [DataTable.append], which
    adds a last row; a row of another width than the table's is refused
    with [InvalidDimensions]. *)
Definition append (row : list value) (row_tags : list string) : M t unit :=
  λ d, if _validate row d
       then (Ok tt, {| title := title d; headers := headers d;
                       _data := _data d ++ [mkRow row row_tags] |})
       else (Raise invalid_dimensions, d).

(** Modelled from the spec: the missing property [DataTable.dict], each
    row as an ordered mapping from header to value.  Without headers the
    rows are plain lists, not mappings. *)
Definition dict (d : t) : option (list (list (string * value))) :=
  match headers d with
  | Some h => Some (map (λ r, zip h (values r)) (_data d))
  | None => None
  end.

(** What a parser hands to the [dict] setter: an array of row objects,
    an array of arrays, a single mapping, or a scalar. *)
Inductive document :=
  | DocRecords (recs : list (list (string * value)))
  | DocRows (rows : list (list value))
  | DocMapping (items : list (string * value))
  | DocScalar (v : value).

(** [for row in rows: append(row)] *)
Fixpoint append_all (rows : list (list value)) : M t unit :=
  match rows with
  | [] => ret tt
  | row :: rest => append row [] ;;' append_all rest
  end.

(** Modelled from the spec: the missing setter of [DataTable.dict].  An
    empty array changes nothing; an array of arrays replaces the rows; an
    array of row objects takes the headers from the keys of the first
    object and the rows from the values of each; anything else is refused
    with [UnsupportedFormat] (DataLib/exceptions.py). *)
Definition set_dict (pickle : document) : M t unit :=
  match pickle with
  | DocRecords [] | DocRows [] => ret tt
  | DocRows rows => wipe ;;' append_all rows
  | DocRecords (first :: rest) =>
      wipe ;;' set_headers (first.*1) ;;'
      append_all ((λ r : list (string * value), r.*2) <$> first :: rest)
  | DocMapping _ | DocScalar _ => raise (Exc UnsupportedFormat "")
  end.

(** Modelled from the spec: the missing method [DataTable._package] with
    [dicts=False], the table as lists: the headers first if the table
    declares any, then the rows. *)
Definition _package_lists (d : t) : list (list value) :=
  match headers d with
  | Some h => (VStr <$> h) :: (values <$> _data d)
  | None => values <$> _data d
  end.

End DataTable.

(** ** CSV (formats/_csv.py) *)

Module CSVFormat.
Import DataTable.

Definition DEFAULT_DELIMITER : string := ",".

(** The body of the [for i, row in enumerate(rows)] loop. *)
Definition import_row (use_headers : bool) (i : nat) (row : list string)
  : M DataTable.t unit :=
  if Nat.eqb i 0 && use_headers then set_headers row
  else match row with
       | [] => ret tt
       | _ :: _ =>
           w ←' gets width;
           let row' :=
             if Nat.ltb 0 i && Nat.ltb (length row) w
             then row ++ replicate (w - length row) ""
             else row in
           append (VStr <$> row') []
       end.

Fixpoint import_rows (use_headers : bool) (i : nat)
    (rows : list (list string)) : M DataTable.t unit :=
  match rows with
  | [] => ret tt
  | row :: rest =>
      import_row use_headers i row ;;' import_rows use_headers (S i) rest
  end.

(** [import_set(dset, in_stream, headers)]; [rows] are the records that
    [csv.reader] yields for the stream, each a list of fields (an empty
    list for a blank line). *)
Definition import_set (rows : list (list string)) (use_headers : bool)
  : M DataTable.t unit :=
  wipe ;;' import_rows use_headers 0 rows.

Section detect.
(** [csv.Sniffer().sniff(sample, delimiters)] of the standard library:
    it returns a dialect or raises. *)
Context {dialect : Type}.
Variable sniff : string → string → py_result dialect.

(** [delimiter or cls.DEFAULT_DELIMITER] *)
Definition delimiter_or_default (delimiter : option string) : string :=
  match delimiter with
  | Some s => if String.eqb s "" then DEFAULT_DELIMITER else s
  | None => DEFAULT_DELIMITER
  end.

(** [stream.read(1024)] on a stream holding [stream]. *)
Definition read (n : nat) (stream : string) : string :=
  String.substring 0 n stream.

Definition detect (stream : string) (delimiter : option string)
  : py_result bool :=
  try_except
    (match sniff (read 1024 stream) (delimiter_or_default delimiter) with
     | Ok _ => Ok true
     | Raise e => Raise e
     end)
    [Exception]
    (Ok false).
End detect.

(** [export_stream_set] up to the text: the records that it hands to
    [csv.writer], one [writerow] each. *)
Definition export_stream_set (d : DataTable.t) : list (list value) :=
  _package_lists d.

(** The field that [csv.writer] writes for a value, and that [csv.reader]
    reads back: nothing for [None], the value's text otherwise. *)
Definition written_field (v : value) : string :=
  match v with
  | VNone => ""
  | VBool true => "True"
  | VBool false => "False"
  | VInt z => pretty z
  | VStr s => s
  end.

End CSVFormat.



(** ** JSON (formats/_json.py) *)

Module JSONFormat.
Import DataTable.

Section with_parser.
(** [json.load] of the standard library. *)
Variable json_load : string → py_result document.

Definition import_set (in_stream : string) : M DataTable.t unit :=
  wipe ;;'
  pickle ←' lift (json_load in_stream);
  set_dict pickle.

Definition detect (stream : string) : py_result bool :=
  try_except
    (match json_load stream with
     | Ok _ => Ok true
     | Raise e => Raise e
     end)
    [TypeError; ValueError]
    (Ok false).
End with_parser.

(** [export_set] up to [json.dumps]: the document that it serialises,
    [DataTable.dict]. *)
Definition export_set (d : DataTable.t) : document :=
  match dict d with
  | Some recs => DocRecords recs
  | None => DocRows (values <$> _data d)
  end.

End JSONFormat.

(** ** YAML (formats/_yaml.py) *)

Module YAMLFormat.
Import DataTable.

(** [isinstance(_yaml, (list, tuple, dict))] *)
Definition is_container (doc : document) : bool :=
  match doc with
  | DocRecords _ | DocRows _ | DocMapping _ => true
  | DocScalar _ => false
  end.

Section with_parser.
(** [yaml.safe_load] of PyYAML. *)
Variable safe_load : string → py_result document.

Definition import_set (in_stream : string) : M DataTable.t unit :=
  wipe ;;'
  pickle ←' lift (safe_load in_stream);
  set_dict pickle.

Definition detect (stream : string) : py_result bool :=
  try_except
    (match safe_load stream with
     | Ok _yaml => if is_container _yaml then Ok true else Ok false
     | Raise e => Raise e
     end)
    [yaml_ParserError; yaml_ReaderError; yaml_ScannerError]
    (Ok false).
End with_parser.
End YAMLFormat.

(** ** Rendering of values *)

Definition nl : string := String "010"%char EmptyString.

(** [', '.join(items)] and the like. *)
Fixpoint join (sep : string) (items : list string) : string :=
  match items with
  | [] => ""
  | [x] => x
  | x :: rest => x +:+ sep +:+ join sep rest
  end.

Definition str_of_nat (n : nat) : string := pretty n.

(** [str(value)] *)
Definition str (v : value) : string :=
  match v with
  | VNone => "None"
  | VBool true => "True"
  | VBool false => "False"
  | VInt z => pretty z
  | VStr s => s
  end.

(** ** XML (formats/_xml.py) *)

Module XMLFormat.
Import DataTable.

(** An [xml.etree.ElementTree.Element]. *)
#[local] Unset Elimination Schemes.
Inductive Element := mkElement {
  tag : string;
  attrib : list (string * string);
  text : option string;
  children : list Element
}.
#[local] Set Elimination Schemes.

Definition value_node (item : string * value) : Element :=
  mkElement item.1 [] (Some (str item.2)) [].

Definition row_node (row : list (string * value)) (row_tags : list string)
  : Element :=
  mkElement "row"
    (match row_tags with
     | [] => []
     | _ => [("tags", join "," row_tags)]
     end)
    None
    (value_node <$> row).

(** [export_set] up to [ET.tostring]: the element tree it builds.  The
    rows of a table without headers are lists, which have no [items]. *)
Definition export_set (d : DataTable.t) : py_result Element :=
  match dict d, _data d with
  | Some rows, data =>
      Ok (mkElement "DataTable" [] None
            (zip_with (λ row r, row_node row (tags r)) rows data))
  | None, [] => Ok (mkElement "DataTable" [] None [])
  | None, _ :: _ => Raise (Exc AttributeError "")
  end.

End XMLFormat.

(** ** LaTeX (formats/_latex.py) *)

Module LATEXFormat.
Import DataTable.

Definition TEX_RESERVED_SYMBOLS_MAP : list (ascii * string) :=
  [ ("\"%char, "\textbackslash{}");
    ("{"%char, "\{");
    ("}"%char, "\}");
    ("$"%char, "\$");
    ("&"%char, "\&");
    ("#"%char, "\#");
    ("^"%char, "\textasciicircum{}");
    ("_"%char, "\_");
    ("~"%char, "\textasciitilde{}");
    ("%"%char, "\%") ].

(** [TEX_RESERVED_SYMBOLS_RE]: the alternation of the map's keys, each
    one character; does it match at character [c]? *)
Definition TEX_RESERVED_SYMBOLS_RE (c : ascii) : bool :=
  existsb (Ascii.eqb c) (TEX_RESERVED_SYMBOLS_MAP.*1).

Fixpoint lookup_symbol (c : ascii) (m : list (ascii * string))
  : option string :=
  match m with
  | [] => None
  | (k, r) :: rest => if Ascii.eqb c k then Some r else lookup_symbol c rest
  end.

(** [replace(match)]: the map's entry for the matched text. *)
Definition replace (c : ascii) : string :=
  default (String c "") (lookup_symbol c TEX_RESERVED_SYMBOLS_MAP).

(** [TEX_RESERVED_SYMBOLS_RE.sub(replace, input)]: scan from the left,
    replace every match, copy every other character. *)
Fixpoint _escape_tex_reserved_symbols (input : string) : string :=
  match input with
  | EmptyString => EmptyString
  | String c rest =>
      (if TEX_RESERVED_SYMBOLS_RE c then replace c else String c "")
      +:+ _escape_tex_reserved_symbols rest
  end.

Definition serialize_item (item : value) : string :=
  if truthy item then _escape_tex_reserved_symbols (str item) else "".

Definition _serialize_row (row : list value) : string :=
  "      " +:+ join " & " (serialize_item <$> row) +:+ " \\".

(** [rule % (trim, colindex, colindex)] *)
Definition cmidrule_rule (trim : string) (colindex : nat) : string :=
  "\cmidrule(" +:+ trim +:+ "){" +:+ str_of_nat colindex +:+ "-"
    +:+ str_of_nat colindex +:+ "}".

Definition _cmidrule (colindex DataTable_width : nat) : string :=
  if Nat.eqb colindex 1 then cmidrule_rule "r" colindex
  else if Nat.eqb colindex DataTable_width then cmidrule_rule "l" colindex
  else cmidrule_rule "lr" colindex.

Definition _midrule (DataTable_width : nat) : string :=
  if Nat.eqb DataTable_width 0 || Nat.eqb DataTable_width 1
  then "\midrule"
  else join " " ((λ colindex, _cmidrule colindex DataTable_width)
                   <$> seq 1 DataTable_width).

Definition _colspec (DataTable_width : nat) : string :=
  "l" +:+ String.concat "" (replicate (DataTable_width - 1) "r").

Definition TABLE_TEMPLATE (CAPTION COLSPEC HEADER MIDRULE BODY : string)
  : string :=
  "% Note: add \usepackage{booktabs} to your preamble" +:+ nl +:+
  "%" +:+ nl +:+
  "\begin{table}[!htbp]" +:+ nl +:+
  "  \centering" +:+ nl +:+
  "  " +:+ CAPTION +:+ nl +:+
  "  \begin{tabular}{" +:+ COLSPEC +:+ "}" +:+ nl +:+
  "    \toprule" +:+ nl +:+
  HEADER +:+ nl +:+
  "    " +:+ MIDRULE +:+ nl +:+
  BODY +:+ nl +:+
  "    \bottomrule" +:+ nl +:+
  "  \end{tabular}" +:+ nl +:+
  "\end{table}" +:+ nl.

Definition export_set (d : DataTable.t) : string :=
  let caption :=
    if String.eqb (title d) "" then "%"
    else "\caption{" +:+ title d +:+ "}" in
  let colspec := _colspec (width d) in
  let header :=
    match headers d with
    | Some h => _serialize_row (VStr <$> h)
    | None => ""
    end in
  let midrule := _midrule (width d) in
  let body := join nl ((λ r, _serialize_row (values r)) <$> _data d) in
  TABLE_TEMPLATE caption colspec header midrule body.

End LATEXFormat.

(** ** The table wrapper (DataSet/dataset.py) *)

(** Results of calls that do not change the program's own objects. *)
Definition rbind {A B} (r : py_result A) (k : A → py_result B) : py_result B :=
  match r with
  | Ok a => k a
  | Raise e => Raise e
  end.

Definition rmap {A B} (f : A → B) (r : py_result A) : py_result B :=
  rbind r (λ a, Ok (f a)).

(** The ORM's field classes that the wrapper knows. *)
Inductive field_class :=
  | TextField | DateTimeField | BooleanField | IntegerField | FloatField
  | DecimalField | AutoField.

Record Field := mkField {
  fname : string;
  fclass : field_class;
  null : bool;
  primary_key : bool
}.

#[global] Instance field_class_eq_dec : EqDecision field_class.
Proof. solve_decision. Defined.
#[global] Instance Field_eq_dec : EqDecision Field.
Proof. solve_decision. Defined.

(** A row as a query yields it with [dicts()]. *)
Definition dictrow : Type := list (string * value).

Module Table.

(** A table of the database together with its model class.  The ORM and
    the database are libraries outside the repository; they are modelled
    by what the wrapper relies on: [fields] are the model's
    [_meta.sorted_fields], in the order of the table's columns, and each
    stored row holds one cell per field, in that order, [VNone] for SQL
    NULL. *)
Record t := mk {
  name : string;
  fields : list Field;
  rows : list (list value)
}.

(** [Table.__init__] for a name without model: [_create_model] and
    [create_table] give the table the ORM's automatic key [id]. *)
Definition create (name : string) : t :=
  {| name := name;
     fields := [mkField "id" AutoField false true];
     rows := [] |}.

Definition _guess_field_type (v : value) : field_class :=
  match v with
  | VStr _ => TextField
  | VBool _ => BooleanField
  | VInt _ => IntegerField
  | VNone => TextField
  end.

Definition columns (tb : t) : list string := fname <$> fields tb.

(** [model_class._meta.fields]: the fields by name. *)
Definition meta_fields (tb : t) : gmap string Field :=
  foldl (λ m f, <[fname f := f]> m) ∅ (fields tb).

(** [migrator.add_column(name, key, field)] once migrated, and the model
    regenerated by [update_cache]: a new last column, NULL in every
    stored row. *)
Definition add_column (field : Field) : M t unit :=
  modify (λ tb, {| name := name tb;
                   fields := fields tb ++ [field];
                   rows := (λ r, r ++ [VNone]) <$> rows tb |}).

Fixpoint add_columns (data : gmap string value) (keys : list string)
  : M t unit :=
  match keys with
  | [] => ret tt
  | key :: rest =>
      add_column (mkField key (_guess_field_type (default VNone (data !! key)))
                    true false) ;;'
      add_columns data rest
  end.

Definition _migrate_new_columns (data : gmap string value) : M t unit :=
  new_keys ←' gets (λ tb, dom data ∖ dom (meta_fields tb));
  if decide (new_keys = ∅) then ret tt
  else add_columns data (elements new_keys).

Definition dicts (tb : t) (row : list value) : dictrow :=
  zip (columns tb) row.

(** The cell of a stored row under a column. *)
Definition cell (tb : t) (row : list value) (column : string) : option value :=
  (list_to_map (dicts tb row) : gmap string value) !! column.

Definition pk_name (tb : t) : option string :=
  fname <$> List.find primary_key (fields tb).

Definition pk_cell (tb : t) (row : list value) : option value :=
  pk_name tb ≫= cell tb row.

Definition int_of (v : value) : Z :=
  match v with VInt z => z | _ => 0%Z end.

(** The key the database gives a row inserted without one. *)
Definition next_id (tb : t) : Z :=
  (1 + foldr Z.max 0 ((λ r, int_of (default VNone (pk_cell tb r))) <$> rows tb))%Z.

Definition integrity_error : exception := Exc IntegrityError "".

(** The cell stored under [f] for a row inserted from [data]. *)
Definition new_cell (pk : value) (data : gmap string value) (f : Field)
  : value :=
  if primary_key f then pk else default VNone (data !! fname f).

(** [model_class.insert(...).execute()]: the row is appended, with
    NULL in the columns that [data] lacks; a key that a stored row
    already has, or NULL in a column that refuses it, is an
    [IntegrityError].  It returns the key of the new row. *)
Definition orm_insert (data : gmap string value) : M t value :=
  λ tb,
    let pk := match pk_name tb ≫= (data !!.) with
              | Some VNone | None => VInt (next_id tb)
              | Some v => v
              end in
    let row := new_cell pk data <$> fields tb in
    if bool_decide (Exists (λ r, pk_cell tb r = Some pk) (rows tb))
    then (Raise integrity_error, tb)
    else if bool_decide
              (Exists (λ f, null f = false ∧ new_cell pk data f = VNone)
                 (fields tb))
    then (Raise integrity_error, tb)
    else (Ok pk, {| name := name tb; fields := fields tb;
                    rows := rows tb ++ [row] |}).

Definition insert (data : gmap string value) : M t value :=
  _migrate_new_columns data ;;' orm_insert data.

(** Does a stored row satisfy every [column == value] of the filters? *)
Definition matches (tb : t) (filters : gmap string value)
    (row : list value) : Prop :=
  map_Forall (λ column v, cell tb row column = Some v) filters.

#[global] Instance matches_dec tb filters row :
  Decision (matches tb filters row).
Proof. unfold matches. apply _. Defined.

(** [_apply_where(model_class.select(), filters)]: looking up a column
    that the model does not have is a [KeyError]. *)
Definition _apply_where (tb : t) (filters : gmap string value)
  : py_result (list (list value)) :=
  if decide (dom filters ⊆ dom (meta_fields tb))
  then Ok (filter (matches tb filters) (rows tb))
  else Raise (Exc KeyError "").

Definition find (tb : t) (query : gmap string value)
  : py_result (list dictrow) :=
  rmap (fmap (dicts tb)) (_apply_where tb query).

(** [query.get()]: the first row, or [DoesNotExist]. *)
Definition get {A} (results : list A) : py_result A :=
  match results with
  | r :: _ => Ok r
  | [] => Raise (Exc DoesNotExist "")
  end.


Definition all (tb : t) : py_result (list dictrow) := find tb ∅.

(** [model_class[item]]: the row whose key is [item]. *)
Definition get_by_id (tb : t) (item : value) : py_result dictrow :=
  rmap (dicts tb)
    (get (filter (λ r, pk_cell tb r = Some item) (rows tb))).

Definition __getitem__ (tb : t) (item : value)
  : py_result (option dictrow) :=
  try_except
    (rmap Some (get_by_id tb item))
    [DoesNotExist]
    (Ok None).

(** [__len__]: [self.find().count()]. *)
Definition __len__ (tb : t) : py_result nat :=
  rmap length (find tb ∅).

(** [delete(query)]: [_apply_where(model_class.delete(), query).execute()]
    removes the rows that the filters select and returns their number. *)
Definition delete (query : gmap string value) : M t nat :=
  λ tb, match _apply_where tb query with
        | Ok selected =>
            (Ok (length selected),
             {| name := name tb; fields := fields tb;
                rows := filter (λ r, ¬ matches tb query r) (rows tb) |})
        | Raise e => (Raise e, tb)
        end.

(** [del model_class[item]]: the ORM deletes the row whose key is
    [item], if there is one. *)
Definition __delitem__ (item : value) : M t unit :=
  modify (λ tb, {| name := name tb; fields := fields tb;
                   rows := filter (λ r, pk_cell tb r ≠ Some item) (rows tb) |}).

(** The [conjunction] of [update] and [_apply_where]. *)
Inductive conjunction := and_ | or_.

(** The loop [for column in columns: filters[column] = data.pop(column)]
    of [update]; popping a key that [data] lacks is a [KeyError]. *)
Fixpoint pop_filters (columns : list string) (data filters : gmap string value)
  : py_result (gmap string value * gmap string value) :=
  match columns with
  | [] => Ok (data, filters)
  | column :: rest =>
      match data !! column with
      | Some v =>
          pop_filters rest (base.delete column data) (<[column := v]> filters)
      | None => Raise (Exc KeyError "")
      end
  end.

Section update.
(** [model_class.update(...)] restricted by the filters under a
    conjunction, executed: the ORM's part of [update], which returns the
    number of rows it changed. *)
Variable orm_update :
  conjunction → gmap string value → gmap string value → M t nat.

(** [update(columns, conjunction, data)]: the new columns are migrated
    first, then the filter columns are taken out of the data. *)
Definition update (columns : list string) (conj : option conjunction)
    (data : gmap string value) : M t nat :=
  _migrate_new_columns data ;;'
  popped ←' lift (pop_filters columns data ∅);
  tb ←' gets id;
  if decide (dom popped.2 ⊆ dom (meta_fields tb))
  then orm_update (default and_ conj) popped.1 popped.2
  else raise (Exc KeyError "").

End update.

End Table.

(** *** Importers *)

Module Importer.

(** [Importer.__init__]: the target's columns by name, taken when the
    importer is made. *)
Definition columns (table : Table.t) : gmap string Field :=
  Table.meta_fields table.

End Importer.

Module JSONImporter.
Section load.
(** [field.python_value] of the ORM: the conversion of an input value to
    the field's type, which may raise. *)
Variable python_value : Field → value → py_result value.

(** The strict branch of [JSONImporter.load] for one row: the [for key
    in row] loop over the row's items. *)
Fixpoint strict_obj (columns : gmap string Field)
    (items : list (string * value)) (obj : gmap string value)
  : py_result (gmap string value) :=
  match items with
  | [] => Ok obj
  | (key, v) :: rest =>
      match columns !! key with
      | Some field =>
          rbind (python_value field v)
            (λ pv, strict_obj columns rest (<[fname field := pv]> obj))
      | None => strict_obj columns rest obj
      end
  end.

(** The [for row in data] loop of [JSONImporter.load]. *)
Fixpoint load_rows (strict : bool) (columns : gmap string Field)
    (data : list (gmap string value)) (count : nat) : M Table.t nat :=
  match data with
  | [] => ret count
  | row :: rest =>
      obj ←' (if strict
              then lift (strict_obj columns (map_to_list row) ∅)
              else ret row);
      if decide (obj = ∅) then load_rows strict columns rest count
      else Table.insert obj ;;'
           load_rows strict columns rest (S count)
  end.

(** [JSONImporter(table, strict).load(file_obj)]; [data] is what
    [json.load] returns for the file, a list of objects. *)
Definition load (strict : bool) (data : list (gmap string value))
  : M Table.t nat :=
  columns ←' gets Importer.columns;
  load_rows strict columns data 0.

End load.
End JSONImporter.

Module CSVImporter.
Section load.
(** [field.python_value] of the ORM. *)
Variable python_value : Field → value → py_result value.

(** An entry of [header_fields]: a field in strict mode, the header's
    key otherwise. *)
Inductive header_field :=
  | HField (field : Field)
  | HKey (key : string).

(** The strict branch: the known keys of the header, with their
    positions. *)
Fixpoint strict_header_fields (columns : gmap string Field) (idx : nat)
    (header_keys : list string) : list (nat * header_field) :=
  match header_keys with
  | [] => []
  | key :: rest =>
      match columns !! key with
      | Some field =>
          (idx, HField field) :: strict_header_fields columns (S idx) rest
      | None => strict_header_fields columns (S idx) rest
      end
  end.

(** [list(enumerate(header_keys))] *)
Definition enumerate_keys (header_keys : list string)
  : list (nat * header_field) :=
  imap (λ idx key, (idx, HKey key)) header_keys.

Definition index_error : exception := Exc IndexError "".

(** The [for idx, field in header_fields] loop that fills [obj]. *)
Fixpoint csv_obj (header_fields : list (nat * header_field))
    (row : list string) (obj : gmap string value)
  : py_result (gmap string value) :=
  match header_fields with
  | [] => Ok obj
  | (idx, hf) :: rest =>
      match row !! idx with
      | None => Raise index_error
      | Some c =>
          match hf with
          | HField field =>
              rbind (python_value field (VStr c))
                (λ pv, csv_obj rest row (<[fname field := pv]> obj))
          | HKey key => csv_obj rest row (<[key := VStr c]> obj)
          end
      end
  end.

(** The [for row in reader] loop of [CSVImporter.load]. *)
Fixpoint load_rows (header_fields : list (nat * header_field))
    (reader : list (list string)) (count : nat) : M Table.t nat :=
  match reader with
  | [] => ret count
  | row :: rest =>
      obj ←' lift (csv_obj header_fields row ∅);
      Table.insert obj ;;'
      load_rows header_fields rest (S count)
  end.

(** [CSVImporter(table, strict).load(file_obj, header)]; [reader] holds
    the records that [csv.reader] yields.  Without a header the method
    reads [self.model], an attribute that no importer has. *)
Definition load (strict : bool) (reader : list (list string))
    (header : bool) : M Table.t nat :=
  columns ←' gets Importer.columns;
  if header then
    match reader with
    | [] => ret 0
    | header_keys :: reader' =>
        let header_fields :=
          if strict then strict_header_fields columns 0 header_keys
          else enumerate_keys header_keys in
        match header_fields with
        | [] => ret 0
        | _ => load_rows header_fields reader' 0
        end
    end
  else raise (Exc AttributeError "").

End load.
End CSVImporter.

(** *** The dataset: export *)

Module DataSet.

(** What an exporter hands to the serialisation library. *)
Inductive written :=
  | json_dump (objs : list dictrow)
  | csv_writerow (delimiter : option string) (row : list value).

(** The database's tables by name, and the content of the files and
    file-like objects by name. *)
Record t := mk {
  tables : gmap string Table.t;
  files : gmap string (list written)
}.




(** [sorted(keys)] *)
Fixpoint insert_sorted (k : string) (ks : list string) : list string :=
  match ks with
  | [] => [k]
  | k' :: rest =>
      if String.leb k k' then k :: ks else k' :: insert_sorted k rest
  end.

Definition sorted (ks : list string) : list string :=
  foldr insert_sorted [] ks.

Definition quote : string := String "034"%char EmptyString.

Definition value_error (msg : string) : exception := Exc ValueError msg.

(** A file name counts when it is a non-empty string, a file-like
    object when there is one. *)
Definition given (filename : option string) : bool :=
  match filename with
  | Some s => negb (String.eqb s "")
  | None => false
  end.

Definition _check_arguments {A} (filename file_obj : option string)
    (format : string) (format_dict : list (string * A)) : py_result unit :=
  if given filename && bool_decide (is_Some file_obj) then
    Raise (value_error
      ("file is over-specified. Please use either " +:+
       "filename or file_obj, but not both."))
  else if negb (given filename) && negb (bool_decide (is_Some file_obj)) then
    Raise (value_error
      ("A filename or file-like object must be " +:+ "specified."))
  else if bool_decide (format ∉ format_dict.*1) then
    Raise (value_error
      ("Unsupported format " +:+ quote +:+ format +:+ quote +:+
       ". Use one of " +:+ join ", " (sorted (format_dict.*1)) +:+ "."))
  else Ok tt.




Section dependencies.
(** [fk_meta.dest_table] for each foreign key that
    [_database.get_foreign_keys(table)] reports. *)
Variable get_foreign_keys : string → list string.

(** The [while stack] loop of [get_table_dependencies], each iteration
    costing one unit of fuel.  The stack is kept with its top first.
    Nothing ever enters [seen]. *)
Fixpoint dependencies_loop (fuel : nat) (stack accum : list string)
    (seen : gset string) : option (list string) :=
  match stack with
  | [] => Some accum
  | table :: stack' =>
      match fuel with
      | 0 => None
      | S fuel' =>
          let dests :=
            filter (λ dest, dest ∉ seen) (get_foreign_keys table) in
          dependencies_loop fuel' (reverse dests ++ stack')
            (accum ++ dests) seen
      end
  end.

Definition get_table_dependencies (fuel : nat) (table : string)
  : option (list string) :=
  dependencies_loop fuel [table] [] ∅.
End dependencies.

End DataSet.

(** A data row as the CSV import stores it under a header of width [w]:
    filled up on the right with empty strings. *)
Definition padded (w : nat) (row : list string) : list string :=
  row ++ replicate (w - length row) "".

Definition stored (w : nat) (row : list string) : DataTable.Row :=
  DataTable.mkRow (VStr <$> padded w row) [].

(** The records that the CSV import reaches under a header of width [w]:
    those before the first record longer than [w]. *)
Fixpoint accepted (w : nat) (rows : list (list string))
  : list (list string) :=
  match rows with
  | [] => []
  | row :: rest =>
      if Nat.leb (length row) w then row :: accepted w rest else []
  end.

(** A table under another title. *)
Definition retitle (s : string) (d : DataTable.t) : DataTable.t :=
  {| DataTable.title := s; DataTable.headers := DataTable.headers d;
     DataTable._data := DataTable._data d |}.

(** A computation on a table that neither reads nor changes its title. *)
Definition title_blind {A} (m : M DataTable.t A) : Prop :=
  ∀ s d, m (retitle s d) = ((m d).1, retitle s (m d).2).

(** The records of a CSV input that hold data. *)
Definition data_records (use_headers : bool) (rows : list (list string))
  : list (list string) :=
  filter (λ r, r ≠ []) (if use_headers then tail rows else rows).

(** Two tables with the same headers and the same rows. *)
Definition same_content (d d' : DataTable.t) : Prop :=
  DataTable.headers d = DataTable.headers d'
  ∧ DataTable._data d = DataTable._data d'.

(** The rows that a parsed document describes: the values of each object
    of an array of objects, or the arrays of an array of arrays. *)
Definition rows_of_document (pickle : DataTable.document)
  : option (list DataTable.Row) :=
  match pickle with
  | DataTable.DocRecords recs =>
      Some ((λ r : list (string * value), DataTable.mkRow (r.*2) []) <$> recs)
  | DataTable.DocRows rows => Some ((λ r, DataTable.mkRow r []) <$> rows)
  | _ => None
  end.

(** The representation invariant of a table: the column names are
    distinct and every stored row has one cell per column. *)
Definition well_formed (tb : Table.t) : Prop :=
  NoDup (Table.columns tb)
  ∧ Forall (λ r, length r = length (Table.fields tb)) (Table.rows tb).



(** The fields that a migration creates for [keys]. *)
Definition new_fields (data : gmap string value) (keys : list string)
  : list Field :=
  (λ key, mkField key (Table._guess_field_type (default VNone (data !! key)))
            true false) <$> keys.

(** The keys of [data] that the table does not have yet, in the order in
    which the migration adds them. *)
Definition new_keys (data : gmap string value) (tb : Table.t) : list string :=
  elements (dom data ∖ dom (Table.meta_fields tb)).

(** How often a column is declared. *)
Definition declared (key : string) (tb : Table.t) : nat :=
  length (filter (λ c, c = key) (Table.columns tb)).

(** A map of fields in which every field sits under its own name. *)
Definition named (columns : gmap string Field) : Prop :=
  ∀ k f, columns !! k = Some f → fname f = k.




(** A stored row after a migration that added [n] columns. *)
Definition extended (n : nat) (row : list value) : list value :=
  row ++ replicate n VNone.

(** [a] has a foreign key to [b]. *)
Definition references (get_foreign_keys : string → list string)
    (a b : string) : Prop :=
  b ∈ get_foreign_keys a.

(** A row without its tags. *)
Definition untagged (r : DataTable.Row) : DataTable.Row :=
  DataTable.mkRow (DataTable.values r) [].

(** The records that [csv.reader] returns for the records that
    [csv.writer] wrote: each value as the field written for it. *)
Definition read_back (records : list (list value)) : list (list string) :=
  (λ record : list value, CSVFormat.written_field <$> record) <$> records.
(** ** Properties of the CSV import *)

Section csv_import.
Import DataTable CSVFormat.

Lemma length_padded w row : length row ≤ w → length (padded w row) = w.
Proof. intros H. unfold padded. rewrite length_app, length_replicate. lia. Qed.

Lemma padded_full w row : w ≤ length row → padded w row = row.
Proof.
  intros H. unfold padded. replace (w - length row) with 0 by lia.
  apply app_nil_r.
Qed.

(** Once the table has width [w > 0], a row no longer than [w] is stored
    padded, and the width stays [w]. *)
Lemma import_row_data b w i row d :
  0 < i → 0 < w → width d = w → row ≠ [] → length row ≤ w →
  import_row b i row d =
    (Ok tt, {| title := title d; headers := headers d;
               _data := _data d ++ [stored w row] |}).
Proof.
  intros Hi Hw Hd Hne Hlen. unfold import_row.
  destruct i as [|i]; [lia|].
  destruct row as [|c row]; [done|].
  change (Nat.eqb (S i) 0 && b) with false. cbv iota.
  change (Nat.ltb 0 (S i)) with true.
  unfold bind, gets. rewrite Hd. cbn [andb].
  assert (Hrow' : (if Nat.ltb (length (c :: row)) w
                   then (c :: row) ++ replicate (w - length (c :: row)) ""
                   else c :: row) = padded w (c :: row)).
  { destruct (Nat.ltb_spec (length (c :: row)) w); [done|].
    by rewrite padded_full. }
  rewrite Hrow'. unfold append, _validate.
  assert (Hl : length (VStr <$> padded w (c :: row)) = w)
    by (rewrite length_fmap; by apply length_padded).
  unfold stored.
  destruct (VStr <$> padded w (c :: row)) as [|v vs] eqn:Hv.
  { simpl in Hl. lia. }
  rewrite Hd. destruct (Nat.eqb_spec w 0); [lia|].
  by rewrite Hl, Nat.eqb_refl.
Qed.

Lemma width_after_row w d r :
  0 < w → width d = w → length (values r) = w →
  width {| title := title d; headers := headers d;
           _data := _data d ++ [r] |} = w.
Proof.
  intros Hw Hd Hr. unfold width in *. simpl.
  destruct (_data d) as [|r0 rs]; simpl; [done|done].
Qed.

Lemma import_row_empty b i d :
  (b = false ∨ 0 < i) → import_row b i [] d = (Ok tt, d).
Proof.
  intros Hbi. unfold import_row.
  replace (Nat.eqb i 0 && b) with false; [done|].
  destruct Hbi as [->|Hi]; [by rewrite andb_false_r|].
  by destruct i; [lia|].
Qed.

(** A record longer than the table is wide is refused. *)
Lemma import_row_too_long b w i row d :
  0 < i → 0 < w → width d = w → w < length row →
  import_row b i row d = (Raise invalid_dimensions, d).
Proof.
  intros Hi Hw Hd Hlen. unfold import_row.
  destruct i as [|i]; [lia|].
  destruct row as [|c row]; [simpl in Hlen; lia|].
  change (Nat.eqb (S i) 0 && b) with false. cbv iota.
  unfold bind, gets. rewrite Hd.
  destruct (Nat.ltb_spec (length (c :: row)) w); [lia|].
  rewrite andb_false_r. unfold append.
  assert (Hv : _validate (VStr <$> c :: row) d = false).
  { rewrite fmap_cons. unfold _validate. rewrite Hd.
    destruct (Nat.eqb_spec w 0); [lia|].
    apply Nat.eqb_neq. rewrite length_cons, length_fmap.
    simpl in Hlen. lia. }
  by rewrite Hv.
Qed.

(** The loop over the data records, once the table has width [w > 0]:
    it stores the records in turn, padded, and stops with
    [InvalidDimensions] at the first one longer than [w]. *)
Lemma import_rows_run b w rs : ∀ i d,
  0 < i → 0 < w → width d = w →
  import_rows b i rs d =
    (if forallb (λ r, Nat.leb (length r) w) rs
     then Ok tt else Raise invalid_dimensions,
     {| title := title d; headers := headers d;
        _data := _data d
                 ++ (stored w <$> filter (λ r, r ≠ []) (accepted w rs)) |}).
Proof.
  induction rs as [|row rs IH]; intros i d Hi Hw Hd.
  - simpl. unfold ret. rewrite app_nil_r. by destruct d.
  - cbn [import_rows forallb accepted]. unfold bind at 1.
    destruct (Nat.leb_spec (length row) w) as [Hle|Hgt].
    + cbn [andb]. destruct (decide (row = [])) as [->|Hne].
      * rewrite import_row_empty by (right; done).
        rewrite (IH (S i) d) by (done || lia).
        by rewrite filter_cons_False by (intros H; by apply H).
      * rewrite (import_row_data b w) by done.
        rewrite (IH (S i)); [| lia | done |].
        -- rewrite filter_cons_True by done. csimpl.
           by rewrite <- app_assoc.
        -- apply width_after_row; [done..|].
           simpl. rewrite length_fmap. by apply length_padded.
    + rewrite (import_row_too_long b w) by done.
      cbn [andb]. csimpl. rewrite app_nil_r. by destruct d.
Qed.



End csv_import.

(** ** Format detection *)

Section detection.

Lemma isinstance_refl e : isinstance e (exc_type e) = true.
Proof.
  unfold isinstance, issubclass. simpl. by rewrite decide_True.
Qed.

(** The CSV probe answers for whatever the sniffer does, as long as what
    it raises is an [Exception]. *)
Lemma csv_detect_total {dialect} (sniff : string → string → py_result dialect)
    stream delimiter :
  (∀ sample delimiters e,
      sniff sample delimiters = Raise e → isinstance e Exception = true) →
  ∃ b : bool, CSVFormat.detect sniff stream delimiter = Ok b.
Proof.
  intros Hexc. unfold CSVFormat.detect, try_except.
  destruct (sniff _ _) as [dl|e] eqn:Hs; [by exists true|].
  apply Hexc in Hs. unfold caught_by. simpl. rewrite Hs. by exists false.
Qed.

(** The YAML probe: an exception is answered with [false] only when it is
    a parser, reader or scanner error. *)
Lemma yaml_detect_raise safe_load stream e :
  safe_load stream = Raise e →
  YAMLFormat.detect safe_load stream =
    if caught_by e [yaml_ParserError; yaml_ReaderError; yaml_ScannerError]
    then Ok false else Raise e.
Proof. intros H. unfold YAMLFormat.detect. by rewrite H. Qed.

Lemma json_detect_raise json_load stream e :
  json_load stream = Raise e →
  JSONFormat.detect json_load stream =
    if caught_by e [TypeError; ValueError] then Ok false else Raise e.
Proof. intros H. unfold JSONFormat.detect. by rewrite H. Qed.

(** C4.  The probes of the YAML and JSON formats let some of the parser's
    exceptions through: on a stream for which [yaml.safe_load] raises a
    composer error (an undefined alias) or a constructor error (an
    unknown tag), and on one for which [json.load] raises a recursion
    error (nesting too deep), [detect] raises that exception instead of
    returning [false]. *)
Theorem detect_lets_parse_errors_through (stream msg : string) :
  YAMLFormat.detect (λ _, Raise (Exc yaml_ComposerError msg)) stream
    = Raise (Exc yaml_ComposerError msg)
  ∧ YAMLFormat.detect (λ _, Raise (Exc yaml_ConstructorError msg)) stream
    = Raise (Exc yaml_ConstructorError msg)
  ∧ JSONFormat.detect (λ _, Raise (Exc RecursionError msg)) stream
    = Raise (Exc RecursionError msg).
Proof. repeat split. Qed.

End detection.

(** ** LaTeX escaping *)

Section latex.
Import LATEXFormat.





(** A character outside the map is copied. *)
Lemma escape_other (c : ascii) (rest : string) :
  TEX_RESERVED_SYMBOLS_RE c = false →
  _escape_tex_reserved_symbols (String c rest) =
    String c (_escape_tex_reserved_symbols rest).
Proof. intros H. simpl. by rewrite H. Qed.

(** The keys of the map are the ten reserved characters. *)
Lemma reserved_symbols :
  TEX_RESERVED_SYMBOLS_MAP.*1 =
    ["\"; "{"; "}"; "$"; "&"; "#"; "^"; "_"; "~"; "%"]%char.
Proof. reflexivity. Qed.






(** The rows of the export are made of the cells so rendered. *)
Lemma serialize_row_cells (row : list value) :
  _serialize_row row =
    "      " +:+ join " & " (serialize_item <$> row) +:+ " \\".
Proof. reflexivity. Qed.

End latex.

(** ** XML export *)

Section xml.
Import DataTable XMLFormat.






End xml.

(** ** Export with an unknown format *)

Section freeze.
Import DataSet.






End freeze.

(** ** The table wrapper: columns and lookups *)

Section table_lookup.
Import Table.

Lemma dom_foldl_insert_fields (fs : list Field) (m : gmap string Field) :
  dom (foldl (λ m f, <[fname f := f]> m) m fs)
  = dom m ∪ list_to_set (fname <$> fs).
Proof.
  revert m. induction fs as [|f fs IH]; intros m; csimpl.
  - by rewrite (right_id_L ∅ (∪)).
  - rewrite IH, dom_insert_L.
    by rewrite (comm_L (∪) {[fname f]} (dom m)), (assoc_L (∪)).
Qed.

(** The names in [_meta.fields] are the table's columns. *)
Lemma dom_meta_fields (tb : Table.t) :
  dom (meta_fields tb) = list_to_set (columns tb).
Proof.
  unfold meta_fields, columns. rewrite dom_foldl_insert_fields.
  by rewrite dom_empty_L, (left_id_L ∅ (∪)).
Qed.

Lemma elem_of_dom_meta_fields (tb : Table.t) (c : string) :
  c ∈ dom (meta_fields tb) ↔ c ∈ columns tb.
Proof. rewrite dom_meta_fields. apply elem_of_list_to_set. Qed.

Lemma filter_none {A} (P : A → Prop) `{!∀ x, Decision (P x)} (l : list A) :
  (∀ x, x ∈ l → ¬ P x) → filter P l = [].
Proof.
  induction l as [|x l IH]; intros Hno; [done|].
  rewrite filter_cons_False by (apply Hno; left).
  apply IH. intros y Hy. apply Hno. by right.
Qed.




End table_lookup.

(** ** Import replaces the content of the target *)

Section import_replaces.
Import DataTable.

Lemma title_blind_ret {A} (a : A) : title_blind (ret a).
Proof. by intros s d. Qed.

Lemma title_blind_raise {A} e : title_blind (@raise _ A e).
Proof. by intros s d. Qed.

Lemma title_blind_lift {A} (r : py_result A) : title_blind (lift r).
Proof. by intros s d. Qed.

Lemma title_blind_bind {A B} (m : M DataTable.t A) (k : A → M DataTable.t B) :
  title_blind m → (∀ a, title_blind (k a)) → title_blind (bind m k).
Proof.
  intros Hm Hk s d. unfold bind. rewrite Hm.
  destruct (m d) as [[a|e] d1]; simpl; [|done]. apply Hk.
Qed.

Lemma width_retitle s d : width (retitle s d) = width d.
Proof. reflexivity. Qed.

Lemma title_blind_wipe : title_blind wipe.
Proof. by intros s d. Qed.

Lemma title_blind_set_headers h : title_blind (set_headers h).
Proof.
  intros s d. unfold set_headers.
  replace (_validate h (retitle s d)) with (_validate h d) by by destruct h.
  by destruct (_validate h d).
Qed.

Lemma title_blind_append row row_tags : title_blind (append row row_tags).
Proof.
  intros s d. unfold append.
  replace (_validate row (retitle s d)) with (_validate row d)
    by by destruct row.
  by destruct (_validate row d).
Qed.

Lemma title_blind_append_all rows : title_blind (append_all rows).
Proof.
  induction rows as [|row rows IH]; simpl.
  - apply title_blind_ret.
  - apply title_blind_bind; [apply title_blind_append|done].
Qed.

Lemma title_blind_set_dict pickle : title_blind (set_dict pickle).
Proof.
  destruct pickle as [[|first rest]|[|row rows]|items|v]; simpl;
    try apply title_blind_ret; try apply title_blind_raise.
  - apply title_blind_bind; [apply title_blind_wipe|intros _].
    apply title_blind_bind; [apply title_blind_set_headers|intros _].
    apply (title_blind_append_all (_ :: _)).
  - apply title_blind_bind; [apply title_blind_wipe|intros _].
    apply (title_blind_append_all (_ :: _)).
Qed.

Lemma title_blind_import_row b i row : title_blind (CSVFormat.import_row b i row).
Proof.
  unfold CSVFormat.import_row.
  destruct (Nat.eqb i 0 && b); [apply title_blind_set_headers|].
  destruct row as [|c row]; [apply title_blind_ret|].
  intros s d. unfold bind, gets. rewrite width_retitle.
  apply title_blind_append.
Qed.

Lemma title_blind_import_rows b rows : ∀ i,
  title_blind (CSVFormat.import_rows b i rows).
Proof.
  induction rows as [|row rows IH]; intros i; simpl.
  - apply title_blind_ret.
  - apply title_blind_bind; [apply title_blind_import_row|done].
Qed.

(** After [wipe], what a title-blind computation does is what it does on
    the empty table. *)
Lemma wipe_then {A} (m : M DataTable.t A) d :
  title_blind m →
  bind wipe (λ _, m) d = ((m DataTable.empty).1,
                          retitle (title d) (m DataTable.empty).2).
Proof.
  intros Hm. unfold bind, wipe, modify.
  change {| title := title d; headers := None; _data := [] |}
    with (retitle (title d) DataTable.empty).
  apply Hm.
Qed.

Lemma csv_import_from_empty rows b d :
  CSVFormat.import_set rows b d =
    ((CSVFormat.import_rows b 0 rows DataTable.empty).1,
     retitle (title d) (CSVFormat.import_rows b 0 rows DataTable.empty).2).
Proof. apply wipe_then, title_blind_import_rows. Qed.

Lemma json_import_from_empty json_load in_stream d :
  let m := bind (lift (json_load in_stream)) set_dict in
  JSONFormat.import_set json_load in_stream d =
    ((m DataTable.empty).1, retitle (title d) (m DataTable.empty).2).
Proof.
  apply wipe_then, title_blind_bind;
    [apply title_blind_lift|apply title_blind_set_dict].
Qed.

Lemma yaml_import_from_empty safe_load in_stream d :
  let m := bind (lift (safe_load in_stream)) set_dict in
  YAMLFormat.import_set safe_load in_stream d =
    ((m DataTable.empty).1, retitle (title d) (m DataTable.empty).2).
Proof.
  apply wipe_then, title_blind_bind;
    [apply title_blind_lift|apply title_blind_set_dict].
Qed.

End import_replaces.

(** ** The rows that an import leaves *)

Section import_exact.
Import DataTable CSVFormat.

Lemma import_rows_ok_wide b w rs : ∀ i d d',
  0 < i → 0 < w → width d = w →
  import_rows b i rs d = (Ok tt, d') →
  _data d' = _data d ++ (stored w <$> filter (λ r, r ≠ []) rs)
  ∧ width d' = w.
Proof.
  induction rs as [|row rs IH]; intros i d d' Hi Hw Hd Hrun.
  - injection Hrun as <-. by rewrite app_nil_r.
  - cbn [import_rows] in Hrun. unfold bind at 1 in Hrun.
    destruct (decide (row = [])) as [->|Hne].
    + rewrite import_row_empty in Hrun by (right; done).
      rewrite filter_cons_False by (intros H; by apply H).
      apply (IH (S i)); [lia|done..].
    + destruct (le_lt_dec (length row) w) as [Hle|Hgt].
      * rewrite (import_row_data b w) in Hrun by done.
        apply IH in Hrun as [Hdata Hwidth]; [|lia|done|].
        -- rewrite filter_cons_True by done. csimpl.
           rewrite Hdata. cbn [_data]. by rewrite <- app_assoc.
        -- apply width_after_row; [done..|].
           simpl. rewrite length_fmap. by apply length_padded.
      * by rewrite (import_row_too_long b w) in Hrun.
Qed.

Lemma import_rows_ok_narrow b rs : ∀ i d d',
  _data d = [] → headers d = None → (b = false ∨ 0 < i) →
  import_rows b i rs d = (Ok tt, d') →
  _data d' = stored (width d') <$> filter (λ r, r ≠ []) rs.
Proof.
  induction rs as [|row rs IH]; intros i d d' Hdata Hhead Hbi Hrun.
  - by injection Hrun as <-.
  - cbn [import_rows] in Hrun. unfold bind at 1 in Hrun.
    destruct (decide (row = [])) as [->|Hne].
    + rewrite import_row_empty in Hrun by done.
      rewrite filter_cons_False by (intros H; by apply H).
      apply (IH (S i) d); [done..|right; lia|done].
    + assert (Hrow : import_row b i row d =
        (Ok tt, {| title := title d; headers := headers d;
                   _data := [mkRow (VStr <$> row) []] |})).
      { unfold import_row.
        replace (Nat.eqb i 0 && b) with false.
        2:{ destruct Hbi as [->|Hi]; [by rewrite andb_false_r|].
            by destruct i; [lia|]. }
        destruct row as [|c row]; [done|].
        assert (Hw : width d = 0) by (unfold width; by rewrite Hdata, Hhead).
        unfold bind, gets. rewrite Hw.
        replace (Nat.ltb (length (c :: row)) 0) with false
          by (symmetry; apply Nat.ltb_ge; lia).
        rewrite andb_false_r. unfold append.
        assert (Hv : _validate (VStr <$> c :: row) d = true).
        { rewrite fmap_cons. unfold _validate. by rewrite Hw. }
        by rewrite Hv, Hdata. }
      rewrite Hrow in Hrun.
      apply (import_rows_ok_wide b (length row)) in Hrun as [Hd' Hw'];
        [|lia|destruct row; [done|simpl; lia]
         |unfold width; simpl; by rewrite length_fmap].
      rewrite filter_cons_True by done. rewrite Hw', Hd'. csimpl.
      unfold stored at 2. by rewrite padded_full.
Qed.

(** A CSV import that succeeds leaves the data records of the input, each
    filled up to the width of the table. *)
Lemma csv_import_exact rows b d :
  (import_set rows b d).1 = Ok tt →
  _data (import_set rows b d).2 =
    stored (width (import_set rows b d).2) <$> data_records b rows.
Proof.
  rewrite csv_import_from_empty. cbn [fst snd].
  rewrite width_retitle. cbn [retitle _data].
  destruct (import_rows b 0 rows DataTable.empty) as [r d'] eqn:Hrun.
  cbn [fst snd]. intros ->. unfold data_records.
  destruct b.
  - destruct rows as [|h rs]; [by injection Hrun as <-|].
    cbn [import_rows tail] in Hrun. unfold bind at 1 in Hrun.
    cbn [import_row Nat.eqb andb] in Hrun.
    unfold set_headers in Hrun.
    destruct h as [|c h].
    + simpl in Hrun.
      apply (import_rows_ok_narrow true rs 1) in Hrun; [done..|right; lia].
    + cbn [_validate width DataTable.empty _data headers Nat.eqb] in Hrun.
      apply (import_rows_ok_wide true (length (c :: h))) in Hrun
        as [Hd' Hw']; [|lia|simpl; lia|done].
      by rewrite Hw', Hd'.
  - by apply (import_rows_ok_narrow false rows 0) in Hrun; [|done..|left].
Qed.

Lemma append_all_ok rows : ∀ d d',
  append_all rows d = (Ok tt, d') →
  _data d' = _data d ++ ((λ r, mkRow r []) <$> rows).
Proof.
  induction rows as [|row rows IH]; intros d d' Hrun.
  - injection Hrun as <-. by rewrite app_nil_r.
  - cbn [append_all] in Hrun. unfold bind at 1, append in Hrun.
    destruct (_validate row d); [|done].
    apply IH in Hrun. rewrite Hrun. csimpl. by rewrite <- app_assoc.
Qed.

(** Setting [dict] on an empty table leaves the rows of the document. *)
Lemma set_dict_exact pickle d' :
  set_dict pickle DataTable.empty = (Ok tt, d') →
  match pickle with
  | DocRecords recs => _data d' = (λ r, mkRow (r.*2) []) <$> recs
  | DocRows rows => _data d' = (λ r, mkRow r []) <$> rows
  | _ => False
  end.
Proof.
  destruct pickle as [[|first rest]|[|row rows]|items|v]; simpl;
    try (by intros [= <-]); try done.
  - unfold bind at 1, wipe, modify. unfold bind at 1, set_headers.
    destruct (_validate _ _); [|done]. intros Hrun.
    apply (append_all_ok (_ :: _)) in Hrun. rewrite Hrun. csimpl.
    by rewrite <- list_fmap_compose.
  - unfold bind at 1, wipe, modify. intros Hrun.
    by apply (append_all_ok (_ :: _)) in Hrun.
Qed.

End import_exact.

Section import_replaces_claim.
Import DataTable.

Lemma csv_import_same_content rows b d d' :
  (CSVFormat.import_set rows b d).1 = (CSVFormat.import_set rows b d').1
  ∧ same_content (CSVFormat.import_set rows b d).2
                 (CSVFormat.import_set rows b d').2.
Proof. by rewrite !csv_import_from_empty. Qed.

Lemma dict_import_same_content load in_stream d d' :
  (JSONFormat.import_set load in_stream d).1
    = (JSONFormat.import_set load in_stream d').1
  ∧ same_content (JSONFormat.import_set load in_stream d).2
                 (JSONFormat.import_set load in_stream d').2.
Proof. by rewrite !json_import_from_empty. Qed.

Lemma dict_import_exact load in_stream pickle d :
  load in_stream = Ok pickle →
  (JSONFormat.import_set load in_stream d).1 = Ok tt →
  rows_of_document pickle
    = Some (_data (JSONFormat.import_set load in_stream d).2).
Proof.
  intros Hload. rewrite json_import_from_empty. cbn [fst snd retitle _data].
  unfold bind at 1 2, lift. rewrite Hload.
  destruct (set_dict pickle DataTable.empty) as [r d'] eqn:Hset.
  cbn [fst snd]. intros ->. apply set_dict_exact in Hset.
  destruct pickle; try done; simpl; by rewrite Hset.
Qed.

(** C9.  The CSV, JSON and YAML imports replace the content of the target:
    whatever two targets held before, the same input leaves them with the
    same outcome, the same headers and the same rows.  When the import
    succeeds the rows are exactly those of the input: for CSV its data
    records (the non-empty records after the header), each filled up to
    the table's width; for JSON and YAML the rows of the parsed
    document. *)
Theorem import_replaces_rows
    (json_load safe_load : string → py_result document)
    (rows : list (list string)) (use_headers : bool) (in_stream : string)
    (d d' : DataTable.t) :
  ( (CSVFormat.import_set rows use_headers d).1
      = (CSVFormat.import_set rows use_headers d').1
    ∧ same_content (CSVFormat.import_set rows use_headers d).2
                   (CSVFormat.import_set rows use_headers d').2
    ∧ ((CSVFormat.import_set rows use_headers d).1 = Ok tt →
       _data (CSVFormat.import_set rows use_headers d).2 =
         stored (width (CSVFormat.import_set rows use_headers d).2)
           <$> data_records use_headers rows) )
  ∧ ( (JSONFormat.import_set json_load in_stream d).1
        = (JSONFormat.import_set json_load in_stream d').1
      ∧ same_content (JSONFormat.import_set json_load in_stream d).2
                     (JSONFormat.import_set json_load in_stream d').2
      ∧ (∀ pickle, json_load in_stream = Ok pickle →
           (JSONFormat.import_set json_load in_stream d).1 = Ok tt →
           rows_of_document pickle
             = Some (_data (JSONFormat.import_set json_load in_stream d).2)) )
  ∧ ( (YAMLFormat.import_set safe_load in_stream d).1
        = (YAMLFormat.import_set safe_load in_stream d').1
      ∧ same_content (YAMLFormat.import_set safe_load in_stream d).2
                     (YAMLFormat.import_set safe_load in_stream d').2
      ∧ (∀ pickle, safe_load in_stream = Ok pickle →
           (YAMLFormat.import_set safe_load in_stream d).1 = Ok tt →
           rows_of_document pickle
             = Some (_data (YAMLFormat.import_set safe_load in_stream d).2)) ).
Proof.
  split; [|split].
  - destruct (csv_import_same_content rows use_headers d d') as [Ho Hc].
    split; [done|]. split; [done|]. apply csv_import_exact.
  - destruct (dict_import_same_content json_load in_stream d d') as [Ho Hc].
    split; [done|]. split; [done|].
    intros pickle. apply dict_import_exact.
  - change (YAMLFormat.import_set safe_load)
      with (JSONFormat.import_set safe_load).
    destruct (dict_import_same_content safe_load in_stream d d') as [Ho Hc].
    split; [done|]. split; [done|].
    intros pickle. apply dict_import_exact.
Qed.

(** A table that already holds a row, after the import of a CSV input and
    of a JSON document. *)
Lemma import_replaces_rows_witness :
  let old := {| title := "t"; headers := Some ["x"];
                _data := [mkRow [VStr "old"] []] |} in
  let load : string → py_result document :=
    λ _, Ok (DocRecords [[("a", VInt 1); ("b", VInt 2)]]) in
  _data (CSVFormat.import_set [["a"; "b"]; ["1"; "2"]] true old).2
    = [mkRow [VStr "1"; VStr "2"] []]
  ∧ Some (_data (JSONFormat.import_set load "" old).2)
    = Some [mkRow [VInt 1; VInt 2] []].
Proof.
  intros old load.
  destruct (import_replaces_rows load load [["a"; "b"]; ["1"; "2"]] true ""
              old old) as [(_ & _ & Hcsv) [(_ & _ & Hjson) _]].
  split.
  - rewrite Hcsv; reflexivity.
  - rewrite <- (Hjson _ eq_refl); reflexivity.
Defined.

End import_replaces_claim.

(** ** Schema on write *)

Section schema_on_write.
Import Table.

Lemma add_columns_spec data keys : ∀ tb,
  add_columns data keys tb =
    (Ok tt, {| name := name tb;
               fields := fields tb ++ new_fields data keys;
               rows := (λ r, r ++ replicate (length keys) VNone) <$> rows tb |}).
Proof.
  induction keys as [|key keys IH]; intros tb.
  - unfold new_fields. csimpl. unfold ret. rewrite app_nil_r.
    rewrite (list_fmap_ext _ id (rows tb)), list_fmap_id; [by destruct tb|].
    intros i r _. apply app_nil_r.
  - cbn [add_columns]. unfold bind at 1, add_column, modify.
    rewrite IH. cbn [name fields rows]. f_equal. f_equal.
    + unfold new_fields. csimpl. by rewrite <- app_assoc.
    + rewrite <- list_fmap_compose. apply list_fmap_ext.
      intros i r _. simpl. by rewrite <- app_assoc.
Qed.

(** The migration always succeeds; it appends the new columns and fills
    them with NULL in the stored rows. *)
Lemma migrate_spec data tb :
  ∃ tb', _migrate_new_columns data tb = (Ok tt, tb')
    ∧ name tb' = name tb
    ∧ fields tb' = fields tb ++ new_fields data (new_keys data tb)
    ∧ rows tb' =
        (λ r, r ++ replicate (length (new_keys data tb)) VNone) <$> rows tb.
Proof.
  unfold _migrate_new_columns, bind, gets, new_keys.
  destruct (decide (dom data ∖ dom (meta_fields tb) = ∅)) as [He|Hne].
  - exists tb. rewrite He, elements_empty. unfold new_fields. csimpl.
    rewrite app_nil_r. repeat split; [done..|].
    rewrite (list_fmap_ext _ id (rows tb)), list_fmap_id; [done|].
    intros i r _. apply app_nil_r.
  - rewrite add_columns_spec. eexists. repeat split.
Qed.

Lemma columns_app_new_fields data keys (fs : list Field) :
  fname <$> (fs ++ new_fields data keys) = (fname <$> fs) ++ keys.
Proof.
  rewrite fmap_app. f_equal. unfold new_fields.
  rewrite <- list_fmap_compose. induction keys; csimpl; by f_equal.
Qed.

Lemma elem_of_new_keys data tb key :
  key ∈ new_keys data tb ↔ key ∈ dom data ∧ key ∉ columns tb.
Proof.
  unfold new_keys. rewrite elem_of_elements, elem_of_difference.
  by rewrite elem_of_dom_meta_fields.
Qed.

Lemma NoDup_new_keys data tb : NoDup (new_keys data tb).
Proof. apply NoDup_elements. Qed.

Lemma orm_insert_spec data tb r tb' :
  orm_insert data tb = (r, tb') →
  name tb' = name tb ∧ fields tb' = fields tb ∧
  match r with
  | Ok pk => rows tb' = rows tb ++ [new_cell pk data <$> fields tb]
  | Raise _ => rows tb' = rows tb
  end.
Proof.
  unfold orm_insert.
  repeat case_bool_decide; intros [= <- <-]; by repeat split.
Qed.

(** What [insert] does to the table, whether the row is accepted or not. *)
Lemma insert_spec data tb r tb' :
  insert data tb = (r, tb') →
  name tb' = name tb
  ∧ columns tb' = columns tb ++ new_keys data tb
  ∧ fields tb' = fields tb ++ new_fields data (new_keys data tb)
  ∧ match r with
    | Ok pk =>
        rows tb' =
          ((λ r, r ++ replicate (length (new_keys data tb)) VNone)
             <$> rows tb)
          ++ [new_cell pk data <$> fields tb']
    | Raise _ =>
        rows tb' =
          (λ r, r ++ replicate (length (new_keys data tb)) VNone) <$> rows tb
    end.
Proof.
  unfold insert, bind.
  destruct (migrate_spec data tb) as (tb1 & -> & Hn & Hf & Hr).
  intros Hins. apply orm_insert_spec in Hins as (Hn' & Hf' & Hr').
  split; [congruence|]. split.
  { unfold columns. rewrite Hf', Hf. apply columns_app_new_fields. }
  split; [congruence|].
  destruct r; rewrite Hr', ?Hf'; by rewrite Hr.
Qed.

Lemma insert_well_formed data tb r tb' :
  well_formed tb → insert data tb = (r, tb') → well_formed tb'.
Proof.
  intros [Hnd Hlen] Hins.
  apply insert_spec in Hins as (_ & Hc & Hf & Hr). split.
  - rewrite Hc. apply NoDup_app. split; [done|]. split.
    + intros c Hc1 Hc2. by apply elem_of_new_keys in Hc2 as [_ ?].
    + apply NoDup_new_keys.
  - assert (Hold : Forall (λ r0 : list value, length r0 = length (fields tb'))
        ((λ r0, r0 ++ replicate (length (new_keys data tb)) VNone)
           <$> rows tb)).
    { apply Forall_fmap. eapply Forall_impl; [exact Hlen|].
      intros row Hrow. simpl.
      rewrite length_app, length_replicate, Hrow, Hf, length_app.
      unfold new_fields. by rewrite length_fmap. }
    destruct r as [pk|e]; rewrite Hr; [|done].
    apply Forall_app. split; [done|].
    apply Forall_singleton. by rewrite length_fmap.
Qed.

Lemma create_well_formed n : well_formed (create n).
Proof.
  split; [|by apply Forall_nil].
  apply NoDup_singleton.
Qed.

(** After [insert], every key of the data is a column. *)
Lemma insert_declares data tb r tb' key :
  insert data tb = (r, tb') → key ∈ dom data → key ∈ columns tb'.
Proof.
  intros Hins Hkey. apply insert_spec in Hins as (_ & Hc & _).
  rewrite Hc, elem_of_app.
  destruct (decide (key ∈ columns tb)); [by left|right].
  by apply elem_of_new_keys.
Qed.

Lemma insert_columns_mono data tb r tb' c :
  insert data tb = (r, tb') → c ∈ columns tb → c ∈ columns tb'.
Proof.
  intros Hins Hc. apply insert_spec in Hins as (_ & -> & _).
  apply elem_of_app. by left.
Qed.


End schema_on_write.

Section cells.
Import Table.

Lemma zip_replicate_r {A B} (l : list A) (b : B) :
  zip l (replicate (length l) b) = (λ a, (a, b)) <$> l.
Proof. induction l as [|a l IH]; [done|]. csimpl. by f_equal. Qed.

Lemma zip_fmap_both {A B C} (f : A → B) (g : A → C) (l : list A) :
  zip (f <$> l) (g <$> l) = (λ a, (f a, g a)) <$> l.
Proof. induction l as [|a l IH]; [done|]. csimpl. by f_equal. Qed.

Lemma NoDup_declared_once (l : list string) (x : string) :
  NoDup l → x ∈ l → length (filter (λ c, c = x) l) = 1.
Proof.
  induction 1 as [|c l Hc Hnd IH]; intros Hx.
  - by apply elem_of_nil in Hx.
  - apply elem_of_cons in Hx as [->|Hx].
    + rewrite filter_cons_True by done. simpl. f_equal.
      apply length_zero_iff_nil, elem_of_nil_inv.
      intros y Hy. apply list_elem_of_filter in Hy as [-> Hy]. done.
    + rewrite filter_cons_False; [by apply IH|].
      intros ->. done.
Qed.

(** A row that a migration extended shows NULL under each new column. *)
Lemma cell_of_new_column tb tb' row ks key :
  columns tb' = columns tb ++ ks →
  length row = length (columns tb) →
  NoDup ks → key ∈ ks → key ∉ columns tb →
  cell tb' (row ++ replicate (length ks) VNone) key = Some VNone.
Proof.
  intros Hc Hlen Hnd Hkey Hnew. unfold cell, dicts. rewrite Hc.
  rewrite zip_with_app by done.
  rewrite list_to_map_app, lookup_union_r.
  - rewrite zip_replicate_r. apply elem_of_list_to_map.
    + rewrite <- list_fmap_compose.
      rewrite (list_fmap_ext _ id ks), list_fmap_id; [done|]. by intros.
    + apply list_elem_of_fmap. by exists key.
  - apply not_elem_of_list_to_map_1. rewrite fst_zip by lia. done.
Qed.

(** A row just inserted shows, under each column, the cell made for it. *)
Lemma cell_of_new_row tb pk data f :
  NoDup (columns tb) → f ∈ fields tb →
  cell tb (new_cell pk data <$> fields tb) (fname f)
  = Some (new_cell pk data f).
Proof.
  intros Hnd Hf. unfold cell, dicts, columns. rewrite zip_fmap_both.
  apply elem_of_list_to_map.
  - by rewrite <- list_fmap_compose.
  - apply list_elem_of_fmap. by exists f.
Qed.

(** In a well-formed table the keys of a row are the columns. *)
Lemma dicts_keys tb row :
  length row = length (fields tb) → (dicts tb row).*1 = columns tb.
Proof.
  intros Hlen. unfold dicts. apply fst_zip.
  unfold columns. rewrite length_fmap. lia.
Qed.

End cells.

Section schema_extension_claim.
Import Table.

Lemma new_field_of_key data tb key :
  key ∈ new_keys data tb →
  ∃ f, f ∈ new_fields data (new_keys data tb)
       ∧ fname f = key ∧ primary_key f = false ∧ null f = true.
Proof.
  intros Hkey. eexists. split.
  - apply list_elem_of_fmap. exists key. split; [reflexivity|done].
  - done.
Qed.

Lemma new_fields_nullable data keys f :
  f ∈ new_fields data keys → null f = true ∧ primary_key f = false.
Proof.
  intros Hf. apply list_elem_of_fmap in Hf as (key & -> & _). done.
Qed.

(** C3.  Inserting a row with a column that the table does not have
    declares that column exactly once, as a nullable one; the rows stored
    before show NULL under it, and so does a row inserted later without
    it, which does not declare it again.  The table stays well formed, so
    that the keys of every row are the declared columns. *)
Theorem insert_extends_schema (tb tb' : Table.t) (data : gmap string value)
    (key : string) (r : py_result value) :
  well_formed tb → key ∈ dom data → key ∉ columns tb →
  insert data tb = (r, tb') →
  declared key tb' = 1
  ∧ (∀ f, f ∈ fields tb' → fname f = key → null f = true)
  ∧ (∀ i row, rows tb !! i = Some row →
       ∃ row', rows tb' !! i = Some row' ∧ cell tb' row' key = Some VNone)
  ∧ (∀ data2 pk2 tb'',
       data2 !! key = None → insert data2 tb' = (Ok pk2, tb'') →
       declared key tb'' = 1
       ∧ ∃ row, last (rows tb'') = Some row
                ∧ cell tb'' row key = Some VNone)
  ∧ well_formed tb'
  ∧ (∀ row, row ∈ rows tb' → (dicts tb' row).*1 = columns tb').
Proof.
  intros Hwf Hdata Hnew Hins.
  pose proof (insert_well_formed _ _ _ _ Hwf Hins) as Hwf'.
  pose proof (insert_declares _ _ _ _ key Hins Hdata) as Hdecl.
  pose proof (insert_spec _ _ _ _ Hins) as (_ & Hc & Hf & Hr).
  assert (Hkey : key ∈ new_keys data tb) by by apply elem_of_new_keys.
  split; [|split; [|split; [|split; [|split]]]].
  - apply NoDup_declared_once; [apply Hwf'|done].
  - intros f Hfin Hname. rewrite Hf in Hfin.
    apply elem_of_app in Hfin as [Hold|Hnewf].
    + exfalso. apply Hnew. rewrite <- Hname.
      apply list_elem_of_fmap. by exists f.
    + by apply new_fields_nullable in Hnewf as [? _].
  - intros i row Hrow.
    exists (row ++ replicate (length (new_keys data tb)) VNone). split.
    + assert (Hold : ((λ r0, r0 ++ replicate (length (new_keys data tb)) VNone)
                        <$> rows tb) !! i
                     = Some (row ++ replicate (length (new_keys data tb)) VNone))
        by by rewrite list_lookup_fmap, Hrow.
      destruct r; rewrite Hr; [|done].
      by apply lookup_app_l_Some.
    + apply (cell_of_new_column tb); [done| |apply NoDup_new_keys|done..].
      destruct Hwf as [_ Hlen].
      rewrite Forall_lookup in Hlen. rewrite (Hlen i row Hrow).
      unfold columns. by rewrite length_fmap.
  - intros data2 pk2 tb'' Hlack Hins2.
    pose proof (insert_well_formed _ _ _ _ Hwf' Hins2) as Hwf''.
    pose proof (insert_spec _ _ _ _ Hins2) as (_ & Hc2 & Hf2 & Hr2).
    split.
    + apply NoDup_declared_once; [apply Hwf''|].
      eapply insert_columns_mono; done.
    + eexists. split; [rewrite Hr2; apply last_snoc|].
      destruct (new_field_of_key data tb key Hkey) as (f0 & Hf0 & <- & Hpk & _).
      rewrite cell_of_new_row.
      * unfold new_cell. by rewrite Hpk, Hlack.
      * apply Hwf''.
      * rewrite Hf2, Hf, !elem_of_app. by left; right.
  - done.
  - intros row Hrow. apply dicts_keys.
    destruct Hwf' as [_ Hlen]. rewrite Forall_forall in Hlen. by apply Hlen.
Qed.

(** The example of the module's documentation: a second user with a
    column [gender] that the first one lacks. *)
Lemma insert_extends_schema_witness :
  let tb := (insert {[ "name" := VStr "Jeff"; "age" := VInt 26 ]}
               (create "users")).2 in
  let tb' := (insert {[ "name" := VStr "Mickey"; "gender" := VStr "male" ]}
                tb).2 in
  declared "gender" tb' = 1
  ∧ ∃ row', rows tb' !! 0 = Some row' ∧ cell tb' row' "gender" = Some VNone.
Proof.
  intros tb tb'.
  destruct (insert_extends_schema tb tb'
              {[ "name" := VStr "Mickey"; "gender" := VStr "male" ]}
              "gender" (Ok (VInt 2))) as (Hdecl & _ & Hrows & _).
  - eapply insert_well_formed; [apply (create_well_formed "users")|].
    apply surjective_pairing.
  - apply (bool_decide_unpack _). vm_compute. exact I.
  - apply (bool_decide_unpack _). vm_compute. exact I.
  - vm_compute. reflexivity.
  - split; [done|]. apply (Hrows 0 [VInt 1; VInt 26; VStr "Jeff"]).
    vm_compute. reflexivity.
Defined.

End schema_extension_claim.

(** ** Strict and non-strict import *)

Section importers.
Import Table.
Variable python_value : Field → value → py_result value.

Lemma named_foldl_insert (fs : list Field) : ∀ m,
  named m → named (foldl (λ m f, <[fname f := f]> m) m fs).
Proof.
  induction fs as [|f fs IH]; intros m Hm; [done|].
  apply IH. intros k g Hk.
  apply lookup_insert_Some in Hk as [[<- <-]|[_ Hk]]; [done|by apply Hm].
Qed.

Lemma named_columns tb : named (Importer.columns tb).
Proof. apply named_foldl_insert. intros k f Hk. by rewrite lookup_empty in Hk. Qed.

Lemma importer_columns_known tb key :
  key ∈ dom (Importer.columns tb) ↔ key ∈ columns tb.
Proof. apply elem_of_dom_meta_fields. Qed.






End importers.

Section csv_importer.
Import Table CSVImporter.
Variable python_value : Field → value → py_result value.








End csv_importer.

Section strictness_claim.
Import Table.



End strictness_claim.

(** ** Two imports of the same input *)

Section determinism.
Import Table.














End determinism.

(** * Further properties of the code *)

(** ** Queries *)

Section queries.
Import Table.







End queries.

(** ** Insertion and lookup by key *)

Section insert_lookup.
Import Table.

Lemma find_app_no_match {A} (p : A → bool) (l k : list A) :
  Forall (λ a, p a = false) k → List.find p (l ++ k) = List.find p l.
Proof.
  intros Hk. induction l as [|a l IH]; simpl.
  - induction Hk as [|b k Hb _ IHk]; [done|]. simpl. by rewrite Hb.
  - by destruct (p a).
Qed.

Lemma pk_name_fields tb tb' :
  fields tb' = fields tb → pk_name tb' = pk_name tb.
Proof. intros H. unfold pk_name. by rewrite H. Qed.

Lemma pk_cell_fields tb tb' row :
  fields tb' = fields tb → pk_cell tb' row = pk_cell tb row.
Proof.
  intros H. unfold pk_cell, pk_name, cell, dicts, columns. by rewrite H.
Qed.

Lemma pk_name_new_fields tb tb' data keys :
  fields tb' = fields tb ++ new_fields data keys →
  pk_name tb' = pk_name tb.
Proof.
  intros H. unfold pk_name. rewrite H, find_app_no_match; [done|].
  apply Forall_forall. intros f Hf. by apply new_fields_nullable in Hf as [_ ?].
Qed.

Lemma pk_name_declared tb k :
  pk_name tb = Some k →
  ∃ f, f ∈ fields tb ∧ primary_key f = true ∧ fname f = k.
Proof.
  unfold pk_name. destruct (List.find primary_key (fields tb)) as [f|] eqn:Hf;
    [|done].
  intros [= <-]. apply find_some in Hf as [Hin Hpk].
  exists f. by rewrite list_elem_of_In.
Qed.



(** What the database checks before it accepts a row. *)
Lemma orm_insert_ok_inv data tb pk tb' :
  orm_insert data tb = (Ok pk, tb') →
  Forall (λ r, pk_cell tb r ≠ Some pk) (rows tb)
  ∧ pk = match pk_name tb ≫= (data !!.) with
         | Some VNone | None => VInt (next_id tb)
         | Some v => v
         end.
Proof.
  unfold orm_insert. repeat case_bool_decide; intros [= <- <-].
  split; [|done]. by apply Forall_Exists_neg in H.
Qed.

Lemma insert_ok_inv data tb pk tb' :
  well_formed tb → insert data tb = (Ok pk, tb') →
  rows tb' = (extended (length (new_keys data tb)) <$> rows tb)
             ++ [new_cell pk data <$> fields tb']
  ∧ Forall (λ r, pk_cell tb' r ≠ Some pk)
      (extended (length (new_keys data tb)) <$> rows tb).
Proof.
  intros Hwf Hins.
  pose proof (insert_spec _ _ _ _ Hins) as (_ & _ & Hf & Hr).
  split; [done|].
  unfold insert, bind in Hins.
  destruct (migrate_spec data tb) as (tb1 & Hm & _ & Hf1 & Hr1).
  rewrite Hm in Hins.
  pose proof (orm_insert_ok_inv _ _ _ _ Hins) as [Hnone _].
  rewrite Hr1 in Hnone.
  eapply Forall_impl; [exact Hnone|]. intros r Hr'. simpl in Hr'.
  rewrite (pk_cell_fields tb1 tb' r); [done|congruence].
Qed.

(** The key cell of the row that [insert] appends is the key it returns. *)
Lemma pk_cell_new_row tb pk data :
  NoDup (columns tb) → is_Some (pk_name tb) →
  pk_cell tb (new_cell pk data <$> fields tb) = Some pk.
Proof.
  intros Hnd [k Hk]. unfold pk_cell. rewrite Hk. simpl.
  apply pk_name_declared in Hk as (f & Hin & Hpk & <-).
  rewrite cell_of_new_row by done. unfold new_cell. by rewrite Hpk.
Qed.

Lemma filter_all {A} (P : A → Prop) `{!∀ x, Decision (P x)} (l : list A) :
  Forall P l → filter P l = l.
Proof.
  induction 1 as [|x l Hx _ IH]; [done|].
  rewrite filter_cons_True by done. by f_equal.
Qed.







End insert_lookup.

Section insert_round_trip.
Import Table.








End insert_round_trip.

(** ** Deleting and updating *)

Section delete_update.
Import Table.




Lemma pop_filters_ok columns : ∀ data filters,
  NoDup columns → (∀ c, c ∈ columns → c ∈ dom data) →
  ∃ data' filters',
    pop_filters columns data filters = Ok (data', filters')
    ∧ (∀ k, data' !! k = if decide (k ∈ columns) then None else data !! k)
    ∧ (∀ k, filters' !! k
            = if decide (k ∈ columns) then data !! k else filters !! k).
Proof.
  induction columns as [|c columns IH]; intros data filters Hnd Hin.
  - exists data, filters. split; [done|].
    split; intros k; rewrite decide_False; done || apply not_elem_of_nil.
  - apply NoDup_cons in Hnd as [Hc Hnd].
    assert (Hcd : c ∈ dom data) by (apply Hin; left).
    apply elem_of_dom in Hcd as [v Hv]. cbn [pop_filters]. rewrite Hv.
    destruct (IH (base.delete c data) (<[c:=v]> filters) Hnd)
      as (data' & filters' & Hpop & Hd & Hf).
    { intros c' Hc'. rewrite dom_delete_L. apply elem_of_difference.
      split; [apply Hin; by right|].
      intros ->%elem_of_singleton. done. }
    exists data', filters'. split; [done|].
    assert (Hmem : ∀ k, k ∈ c :: columns ↔ k = c ∨ k ∈ columns)
      by (intros k; apply elem_of_cons).
    split; intros k.
    + rewrite Hd. destruct (decide (k = c)) as [->|Hne].
      * rewrite decide_False by done.
        rewrite decide_True by (apply Hmem; by left).
        apply lookup_delete_eq.
      * destruct (decide (k ∈ columns)) as [Hk|Hk].
        -- by rewrite decide_True by (apply Hmem; by right).
        -- rewrite decide_False by (rewrite Hmem; tauto).
           by apply lookup_delete_ne.
    + rewrite Hf. destruct (decide (k = c)) as [->|Hne].
      * rewrite decide_False by done.
        rewrite decide_True by (apply Hmem; by left).
        by rewrite lookup_insert_eq.
      * destruct (decide (k ∈ columns)) as [Hk|Hk].
        -- rewrite decide_True by (apply Hmem; by right).
           by apply lookup_delete_ne.
        -- rewrite decide_False by (rewrite Hmem; tauto).
           by apply lookup_insert_ne.
Qed.

Lemma pop_filters_fail columns : ∀ data filters,
  ¬ (NoDup columns ∧ ∀ c, c ∈ columns → c ∈ dom data) →
  pop_filters columns data filters = Raise (Exc KeyError "").
Proof.
  induction columns as [|c columns IH]; intros data filters Hnot.
  - exfalso. apply Hnot. split; [apply NoDup_nil_2|].
    intros c Hc. by apply elem_of_nil in Hc.
  - cbn [pop_filters]. destruct (data !! c) as [v|] eqn:Hv; [|done].
    apply IH. intros [Hnd Hin]. apply Hnot.
    assert (Hc : c ∉ columns).
    { intros Hc. apply Hin in Hc. rewrite dom_delete_L in Hc.
      apply elem_of_difference in Hc as [_ Hc]. apply Hc.
      by apply elem_of_singleton. }
    split; [by apply NoDup_cons|].
    intros c' [->|Hc']%elem_of_cons; [apply elem_of_dom; eauto|].
    apply Hin in Hc'. rewrite dom_delete_L in Hc'.
    by apply elem_of_difference in Hc' as [? _].
Qed.

(** X5.  [update] migrates the new columns of the data before it looks at
    the filter columns.  When a filter column is missing from the data, or
    is named twice, it raises [KeyError], whatever the ORM would do, and
    the table has gained the new columns all the same.  Otherwise the ORM
    updates with the data without the filter columns, filtered by the
    data's values under the filter columns. *)
Theorem update_filters_after_migration
    (orm_update : conjunction → gmap string value → gmap string value
                  → M Table.t nat)
    (columns : list string) (conj : option conjunction)
    (data : gmap string value) (tb : Table.t) :
  let tb1 := (_migrate_new_columns data tb).2 in
  (∀ key, key ∈ dom data → key ∈ Table.columns tb1)
  ∧ (¬ (NoDup columns ∧ ∀ c, c ∈ columns → c ∈ dom data) →
     update orm_update columns conj data tb = (Raise (Exc KeyError ""), tb1))
  ∧ (NoDup columns → (∀ c, c ∈ columns → c ∈ dom data) →
     ∃ data' filters,
       update orm_update columns conj data tb
         = orm_update (default and_ conj) data' filters tb1
       ∧ (∀ k, data' !! k = if decide (k ∈ columns) then None else data !! k)
       ∧ (∀ k, filters !! k
               = if decide (k ∈ columns) then data !! k else None)).
Proof.
  intros tb1.
  destruct (migrate_spec data tb) as (tb1' & Hm & _ & Hf & _).
  assert (tb1 = tb1') as -> by (unfold tb1; by rewrite Hm).
  assert (Hdecl : ∀ key, key ∈ dom data → key ∈ Table.columns tb1').
  { intros key Hkey. unfold Table.columns.
    rewrite Hf, columns_app_new_fields, elem_of_app.
    destruct (decide (key ∈ Table.columns tb)); [by left|right].
    by apply elem_of_new_keys. }
  split; [done|]. split.
  - intros Hnot. unfold update, bind at 1. rewrite Hm.
    unfold bind at 1, lift. by rewrite pop_filters_fail.
  - intros Hnd Hin.
    destruct (pop_filters_ok columns data ∅ Hnd Hin)
      as (data' & filters & Hpop & Hd & Hfl).
    exists data', filters. split; [|split; [done|]].
    + unfold update, bind at 1. rewrite Hm.
      unfold bind at 1, lift. rewrite Hpop.
      unfold bind, gets. cbn [fst snd]. rewrite decide_True; [done|].
      intros k Hk. apply elem_of_dom_meta_fields, Hdecl.
      apply elem_of_dom in Hk as [v Hv]. rewrite Hfl in Hv.
      destruct (decide (k ∈ columns)); [|by rewrite lookup_empty in Hv].
      apply elem_of_dom. eauto.
    + intros k. rewrite Hfl. by rewrite lookup_empty.
Qed.

Lemma update_filters_after_migration_witness :
  let orm_update : conjunction → gmap string value → gmap string value
                   → M Table.t nat := λ _ _ _, ret 0 in
  let data : gmap string value := {[ "favorite_orm" := VStr "peewee" ]} in
  let out := update orm_update ["name"] None data (create "users") in
  out.1 = Raise (Exc KeyError "")
  ∧ Table.columns out.2 = ["id"; "favorite_orm"].
Proof.
  intros orm_update data out.
  assert (Hnot : ¬ (NoDup ["name"] ∧ ∀ c, c ∈ ["name"] → c ∈ dom data)).
  { intros [_ Hin]. specialize (Hin "name" (list_elem_of_here _ _)).
    revert Hin. apply (bool_decide_unpack _). vm_compute. exact I. }
  destruct (update_filters_after_migration orm_update ["name"] None data
              (create "users")) as (_ & Hfail & _).
  specialize (Hfail Hnot). split.
  - exact (f_equal fst Hfail).
  - etrans; [exact (f_equal (λ p, Table.columns p.2) Hfail)|].
    vm_compute. reflexivity.
Defined.

End delete_update.

(** ** Item assignment and deletion *)

Section items.
Import Table.




(** X7.  Deleting the row that was just inserted leaves the rows stored
    before, in their order; the columns that the insertion added stay.
    The deleted key is then absent. *)
Theorem insert_then_delitem (tb tb' : Table.t) (data : gmap string value)
    (pk : value) :
  well_formed tb → is_Some (pk_name tb) →
  insert data tb = (Ok pk, tb') →
  rows (__delitem__ pk tb').2
    = extended (length (new_keys data tb)) <$> rows tb
  ∧ fields (__delitem__ pk tb').2 = fields tb'
  ∧ __getitem__ (__delitem__ pk tb').2 pk = Ok None.
Proof.
  intros Hwf Hpk Hins.
  pose proof (insert_well_formed _ _ _ _ Hwf Hins) as [Hnd' _].
  pose proof (insert_spec _ _ _ _ Hins) as (_ & _ & Hf & _).
  destruct (insert_ok_inv _ _ _ _ Hwf Hins) as [Hr Hnone].
  assert (Hrows : rows (__delitem__ pk tb').2
                  = extended (length (new_keys data tb)) <$> rows tb).
  { unfold __delitem__, modify. cbn [snd rows]. rewrite Hr, filter_app.
    rewrite (filter_all _ _ Hnone).
    rewrite filter_cons_False, filter_nil; [apply app_nil_r|].
    intros Hne. apply Hne. apply pk_cell_new_row; [done|].
    by rewrite (pk_name_new_fields _ _ _ _ Hf). }
  split; [done|]. split; [done|].
  unfold __getitem__, get_by_id. rewrite Hrows.
  rewrite (filter_none _ (extended _ <$> rows tb)); [done|].
  rewrite Forall_forall in Hnone. intros row Hrow Heq.
  apply (Hnone row Hrow). rewrite <- Heq. by apply pk_cell_fields.
Qed.

Lemma insert_then_delitem_witness :
  let tb := (insert {[ "name" := VStr "Jeff" ]} (create "users")).2 in
  let tb' := (insert {[ "age" := VInt 5 ]} tb).2 in
  rows (__delitem__ (VInt 2) tb').2 = [[VInt 1; VStr "Jeff"; VNone]]
  ∧ __getitem__ (__delitem__ (VInt 2) tb').2 (VInt 2) = Ok None.
Proof.
  intros tb tb'.
  destruct (insert_then_delitem tb tb' {[ "age" := VInt 5 ]} (VInt 2))
    as (Hrows & _ & Hget).
  - eapply insert_well_formed; [apply (create_well_formed "users")|].
    apply surjective_pairing.
  - vm_compute. eauto.
  - vm_compute. reflexivity.
  - split; [|done]. rewrite Hrows. vm_compute. reflexivity.
Defined.

End items.

(** ** What the importers count, and where they stop *)

Section importer_counts.
Import Table.
Variable python_value : Field → value → py_result value.

Lemma insert_length data tb r tb' :
  insert data tb = (r, tb') →
  length (rows tb') =
    length (rows tb) + match r with Ok _ => 1 | Raise _ => 0 end.
Proof.
  intros Hins. apply insert_spec in Hins as (_ & _ & _ & Hr).
  destruct r; rewrite Hr, ?length_app, !length_fmap; simpl; lia.
Qed.

Lemma csv_load_rows_count hfs reader : ∀ count tb n tb',
  CSVImporter.load_rows python_value hfs reader count tb = (Ok n, tb') →
  n = count + length reader
  ∧ length (rows tb') = length (rows tb) + length reader.
Proof.
  induction reader as [|row reader IH]; intros count tb n tb' Hrun.
  - injection Hrun as <- <-. simpl. lia.
  - cbn [CSVImporter.load_rows] in Hrun. unfold bind at 1, lift in Hrun.
    destruct (CSVImporter.csv_obj _ _ _ _) as [obj|e]; [|done].
    unfold bind at 1 in Hrun.
    destruct (insert obj tb) as [[pk|e] tb1] eqn:Hins; [|done].
    apply insert_length in Hins. apply IH in Hrun as [-> ->].
    simpl. lia.
Qed.

Lemma csv_load_rows_app hfs l1 l2 : ∀ count tb,
  CSVImporter.load_rows python_value hfs (l1 ++ l2) count tb =
    match CSVImporter.load_rows python_value hfs l1 count tb with
    | (Ok n, tb1) => CSVImporter.load_rows python_value hfs l2 n tb1
    | (Raise e, tb1) => (Raise e, tb1)
    end.
Proof.
  induction l1 as [|row l1 IH]; intros count tb; [done|].
  cbn [app CSVImporter.load_rows]. unfold bind, lift.
  destruct (CSVImporter.csv_obj _ _ _ _) as [obj|e]; [|done].
  destruct (insert obj tb) as [[pk|e] tb1]; [apply IH|done].
Qed.

(** A record that is too short for the header makes the row object
    fail. *)
Lemma csv_obj_short_record (keys : list string) (row : list string) :
  ∀ start obj,
  start ≤ length row → length row < start + length keys →
  CSVImporter.csv_obj python_value
    (imap (λ idx key, (start + idx, CSVImporter.HKey key)) keys) row obj
  = Raise CSVImporter.index_error.
Proof.
  induction keys as [|key keys IH]; intros start obj Hle Hlt.
  - simpl in Hlt. lia.
  - cbn [imap CSVImporter.csv_obj]. rewrite Nat.add_0_r.
    destruct (row !! start) as [c|] eqn:Hc; [|done].
    apply lookup_lt_Some in Hc.
    rewrite (imap_ext _ (λ idx key0, (S start + idx, CSVImporter.HKey key0))).
    + apply IH; [lia|simpl in Hlt; lia].
    + intros i x _. simpl. f_equal. lia.
Qed.

(** X8.  [CSVImporter.load] returns the number of rows that it added to
    the table: none, or one for each record after the header. *)
Theorem csv_load_counts_the_rows (strict : bool) (reader : list (list string))
    (tb tb' : Table.t) (n : nat) :
  CSVImporter.load python_value strict reader true tb = (Ok n, tb') →
  length (rows tb') = length (rows tb) + n
  ∧ ((n = 0 ∧ tb' = tb) ∨ S n = length reader).
Proof.
  unfold CSVImporter.load, bind at 1, gets.
  destruct reader as [|header_keys reader].
  { intros [= <- <-]. split; [lia|by left]. }
  destruct (if strict then _ else _) as [|hf hfs].
  { intros [= <- <-]. split; [lia|by left]. }
  intros Hrun. apply csv_load_rows_count in Hrun as [-> ->].
  split; [done|right; done].
Qed.

(** X9.  [CSVImporter.load] is not atomic.  In non-strict mode a record
    with fewer fields than the header raises [IndexError], and the rows of
    the records before it stay in the table. *)
Theorem csv_load_stops_at_a_short_record
    (header_keys bad : list string) (pre post : list (list string))
    (tb tb1 : Table.t) (n : nat) :
  length bad < length header_keys →
  CSVImporter.load python_value false (header_keys :: pre) true tb
    = (Ok n, tb1) →
  CSVImporter.load python_value false
    (header_keys :: pre ++ bad :: post) true tb
    = (Raise CSVImporter.index_error, tb1)
  ∧ length (rows tb1) = length (rows tb) + length pre.
Proof.
  intros Hshort. unfold CSVImporter.load, bind at 1 2, gets.
  destruct (CSVImporter.enumerate_keys header_keys) as [|hf hfs] eqn:Hhf.
  { apply (f_equal length) in Hhf. unfold CSVImporter.enumerate_keys in Hhf.
    rewrite length_imap in Hhf. simpl in Hhf. lia. }
  rewrite <- Hhf. intros Hpre.
  rewrite csv_load_rows_app, Hpre.
  apply csv_load_rows_count in Hpre as [_ Hlen]. split; [|done].
  cbn [CSVImporter.load_rows]. unfold bind at 1, lift.
  unfold CSVImporter.enumerate_keys.
  rewrite (csv_obj_short_record header_keys bad 0); [done|lia|simpl; lia].
Qed.

Lemma strict_header_fields_unknown cols keys : ∀ idx,
  (∀ k, k ∈ keys → cols !! k = None) →
  CSVImporter.strict_header_fields cols idx keys = [].
Proof.
  induction keys as [|key keys IH]; intros idx Hnone; [done|].
  cbn [CSVImporter.strict_header_fields].
  rewrite (Hnone key) by left. apply IH. intros k Hk. apply Hnone. by right.
Qed.

(** X10.  The inputs that [CSVImporter.load] does not read.  An empty
    input, a first record without fields and, in strict mode, a header
    none of whose keys is a column give 0 and leave the table as it is,
    whatever records follow; without a header the call raises
    [AttributeError]. *)
Theorem csv_load_reads_nothing (strict : bool) (header_keys : list string)
    (records : list (list string)) (tb : Table.t) :
  CSVImporter.load python_value strict [] true tb = (Ok 0, tb)
  ∧ CSVImporter.load python_value strict ([] :: records) true tb = (Ok 0, tb)
  ∧ ((∀ k, k ∈ header_keys → k ∉ columns tb) →
     CSVImporter.load python_value true (header_keys :: records) true tb
       = (Ok 0, tb))
  ∧ CSVImporter.load python_value strict (header_keys :: records) false tb
      = (Raise (Exc AttributeError ""), tb).
Proof.
  split; [done|]. split; [by destruct strict|]. split; [|done].
  intros Hunknown. unfold CSVImporter.load, bind, gets.
  rewrite strict_header_fields_unknown; [done|].
  intros k Hk. apply not_elem_of_dom. rewrite importer_columns_known.
  by apply Hunknown.
Qed.

Lemma json_load_rows_count strict cols data : ∀ count tb n tb',
  JSONImporter.load_rows python_value strict cols data count tb = (Ok n, tb') →
  length (rows tb') + count = length (rows tb) + n
  ∧ n ≤ count + length data
  ∧ (strict = false → n = count + length (filter (λ row, row ≠ ∅) data)).
Proof.
  induction data as [|row data IH]; intros count tb n tb' Hrun.
  - injection Hrun as <- <-. simpl. lia.
  - cbn [JSONImporter.load_rows] in Hrun. unfold bind at 1 in Hrun.
    destruct (_ tb) as [[obj|e] tb0] eqn:Hobj; [|done].
    assert (tb0 = tb ∧ (strict = false → obj = row)) as [-> Hrow].
    { destruct strict; unfold lift, ret in Hobj;
        injection Hobj as ? <-; by split. }
    destruct (decide (obj = ∅)) as [->|Hne].
    + apply IH in Hrun as (Hlen & Hle & Hns).
      split; [done|]. split; [simpl; lia|].
      intros Hs. rewrite (Hns Hs).
      rewrite filter_cons_False; [done|].
      intros Hr. apply Hr. symmetry. by apply Hrow.
    + unfold bind at 1 in Hrun.
      destruct (insert obj tb) as [[pk|e] tb1] eqn:Hins; [|done].
      apply insert_length in Hins.
      apply IH in Hrun as (Hlen & Hle & Hns).
      split; [lia|]. split; [simpl; lia|].
      intros Hs. rewrite (Hns Hs).
      rewrite filter_cons_True; [simpl; lia|].
      by rewrite <- (Hrow Hs).
Qed.

(** X11.  [JSONImporter.load] returns the number of rows that it added
    to the table.  A row without keys is skipped, as is, in strict mode, a
    row without a key that is a column: in non-strict mode the number is
    that of the non-empty rows of the input. *)
Theorem json_load_counts_the_rows (strict : bool)
    (data : list (gmap string value)) (tb tb' : Table.t) (n : nat) :
  JSONImporter.load python_value strict data tb = (Ok n, tb') →
  length (rows tb') = length (rows tb) + n
  ∧ n ≤ length data
  ∧ (strict = false → n = length (filter (λ row, row ≠ ∅) data)).
Proof.
  unfold JSONImporter.load, bind, gets. intros Hrun.
  apply json_load_rows_count in Hrun as (Hlen & Hle & Hns).
  split; [lia|]. split; [lia|]. intros Hs. by rewrite (Hns Hs).
Qed.

End importer_counts.

Section importer_examples.
Import Table.

Lemma csv_load_counts_the_rows_witness :
  let python_value : Field → value → py_result value := λ _ v, Ok v in
  let reader := [["name"; "age"]; ["Jeff"; "26"]; ["Carlos"; "65"]] in
  length (rows (CSVImporter.load python_value false reader true
                  (create "stats")).2) = 2.
Proof.
  intros pv reader.
  destruct (csv_load_counts_the_rows pv false reader (create "stats") _ 2
              eq_refl) as [Hlen _].
  exact Hlen.
Defined.

Lemma csv_load_stops_at_a_short_record_witness :
  let python_value : Field → value → py_result value := λ _ v, Ok v in
  let out := CSVImporter.load python_value false
               [["name"; "age"]; ["Jeff"; "26"]; ["Carlos"]; ["Al"; "3"]]
               true (create "stats") in
  out.1 = Raise CSVImporter.index_error ∧ length (rows out.2) = 1.
Proof.
  intros pv out.
  pose (before := (CSVImporter.load pv false
                     [["name"; "age"]; ["Jeff"; "26"]] true
                     (create "stats")).2).
  assert (Hshort : length ["Carlos"] < length ["name"; "age"])
    by (simpl; lia).
  assert (Hpre : CSVImporter.load pv false [["name"; "age"]; ["Jeff"; "26"]]
                   true (create "stats") = (Ok 1, before))
    by (vm_compute; reflexivity).
  destruct (csv_load_stops_at_a_short_record pv ["name"; "age"] ["Carlos"]
              [["Jeff"; "26"]] [["Al"; "3"]] (create "stats") before 1
              Hshort Hpre) as [Hrun _].
  split.
  - exact (f_equal fst Hrun).
  - etrans; [exact (f_equal (λ p, length (rows p.2)) Hrun)|].
    vm_compute. reflexivity.
Defined.

Lemma csv_load_reads_nothing_witness :
  let python_value : Field → value → py_result value := λ _ v, Ok v in
  CSVImporter.load python_value true [["name"; "age"]; ["Jeff"]] true
    (create "stats") = (Ok 0, create "stats").
Proof.
  intros pv.
  destruct (csv_load_reads_nothing pv true ["name"; "age"] [["Jeff"]]
              (create "stats")) as (_ & _ & H & _).
  apply H. intros k Hk. apply (bool_decide_unpack _).
  repeat (apply elem_of_cons in Hk as [->|Hk]; [by vm_compute|]).
  by apply elem_of_nil in Hk.
Defined.

Lemma json_load_counts_the_rows_witness :
  let python_value : Field → value → py_result value := λ _ v, Ok v in
  let data : list (gmap string value) :=
    [{[ "name" := VStr "Jeff" ]}; ∅; {[ "name" := VStr "Carlos" ]}] in
  length (rows (JSONImporter.load python_value false data
                  (create "users")).2) = 2.
Proof.
  intros pv data.
  destruct (json_load_counts_the_rows pv false data (create "users") _ 2
              eq_refl) as [Hlen _].
  exact Hlen.
Defined.

End importer_examples.

(** ** The arguments of [freeze] and [thaw] *)

Section check_arguments.
Import DataSet.

(** X12.  [_check_arguments] accepts exactly the calls that give either a
    file name or a file-like object, not both, and a registered format;
    every other call raises a [ValueError]. *)
Theorem check_arguments_accepts {A} (filename file_obj : option string)
    (format : string) (format_dict : list (string * A)) :
  (_check_arguments filename file_obj format format_dict = Ok tt
   ↔ given filename ≠ bool_decide (is_Some file_obj)
     ∧ format ∈ format_dict.*1)
  ∧ (∀ e, _check_arguments filename file_obj format format_dict = Raise e →
          exc_type e = ValueError).
Proof.
  unfold _check_arguments.
  destruct (given filename), (bool_decide (is_Some file_obj)); simpl;
    try (split; [split; [done|intros [? _]; done]|by intros e [= <-]]).
  - case_bool_decide as Hf.
    + split; [|by intros e [= <-]]. split; [done|]. intros [_ ?]. done.
    + split; [|done]. split; [|done]. intros _. split; [done|].
      by destruct (decide (format ∈ format_dict.*1)).
  - case_bool_decide as Hf.
    + split; [|by intros e [= <-]]. split; [done|]. intros [_ ?]. done.
    + split; [|done]. split; [|done]. intros _. split; [done|].
      by destruct (decide (format ∈ format_dict.*1)).
Qed.

End check_arguments.

(** ** The dependencies of a table *)

Section dependencies.
Import DataSet.
Variable get_foreign_keys : string → list string.

Lemma unseen_filter
    `{!∀ dest : string, Decision (dest ∉ (∅ : gset string))}
    (l : list string) :
  filter (λ dest, dest ∉ (∅ : gset string)) l = l.
Proof. apply filter_all, Forall_forall. intros x _. apply not_elem_of_empty. Qed.

(** The loop does not end while the stack holds a table from which a
    chain of foreign keys never runs out. *)
Lemma dependencies_loop_diverges (P : string → Prop) :
  (∀ t, P t → ∃ d, d ∈ get_foreign_keys t ∧ P d) →
  ∀ fuel stack accum,
    (∃ t, t ∈ stack ∧ P t) →
    dependencies_loop get_foreign_keys fuel stack accum ∅ = None.
Proof.
  intros Hstep. induction fuel as [|fuel IH]; intros stack accum (t & Hin & Ht).
  - destruct stack; [by apply elem_of_nil in Hin|done].
  - destruct stack as [|x stack]; [by apply elem_of_nil in Hin|].
    cbn [dependencies_loop]. rewrite unseen_filter. apply IH.
    apply elem_of_cons in Hin as [->|Hin].
    + destruct (Hstep x Ht) as (d & Hd & Hpd). exists d. split; [|done].
      apply elem_of_app. left. by rewrite elem_of_reverse.
    + exists t. split; [|done]. apply elem_of_app. by right.
Qed.

Lemma dependencies_loop_more_fuel fuel : ∀ k stack accum res,
  dependencies_loop get_foreign_keys fuel stack accum ∅ = Some res →
  dependencies_loop get_foreign_keys (fuel + k) stack accum ∅ = Some res.
Proof.
  induction fuel as [|fuel IH]; intros k stack accum res Hrun.
  - destruct stack; [|done]. by destruct k.
  - destruct stack as [|x stack]; [done|].
    cbn [dependencies_loop Nat.add] in *. by apply IH.
Qed.

(** The tables pushed by one entry of the stack are worked off before the
    entries below it. *)
Lemma dependencies_loop_app f1 : ∀ s1 accum r1 f2 s2 res,
  dependencies_loop get_foreign_keys f1 s1 accum ∅ = Some r1 →
  dependencies_loop get_foreign_keys f2 s2 r1 ∅ = Some res →
  dependencies_loop get_foreign_keys (f1 + f2) (s1 ++ s2) accum ∅ = Some res.
Proof.
  induction f1 as [|f1 IH]; intros s1 accum r1 f2 s2 res H1 H2.
  - destruct s1; [|done]. by injection H1 as <-.
  - destruct s1 as [|x s1].
    + injection H1 as <-. rewrite Nat.add_comm.
      by apply dependencies_loop_more_fuel.
    + cbn [dependencies_loop Nat.add app] in *.
      rewrite app_assoc. by eapply IH.
Qed.

Lemma references_unfold (t d : string) :
  tc (references get_foreign_keys) t d ↔
  d ∈ get_foreign_keys t
  ∨ ∃ t', t' ∈ get_foreign_keys t ∧ tc (references get_foreign_keys) t' d.
Proof.
  split.
  - intros Htc. destruct Htc as [t d H|t t' d H Htc]; [by left|right].
    by exists t'.
  - intros [H|(t' & H & Htc)]; [by apply tc_once|].
    by eapply tc_l.
Qed.

Lemma dependencies_loop_terminates (rank : string → nat) :
  (∀ t d, d ∈ get_foreign_keys t → rank d < rank t) →
  ∀ n stack, Forall (λ t, rank t < n) stack →
    ∃ fuel extra,
      (∀ accum, dependencies_loop get_foreign_keys fuel stack accum ∅
                = Some (accum ++ extra))
      ∧ (∀ d, d ∈ extra ↔
              ∃ t, t ∈ stack ∧ tc (references get_foreign_keys) t d).
Proof.
  intros Hrank. induction n as [|n IHn]; intros stack Hstack.
  - destruct stack as [|t stack].
    + exists 0, []. split; [intros accum; by rewrite app_nil_r|].
      intros d. split; [by intros ?%elem_of_nil|].
      by intros (t & ?%elem_of_nil & _).
    + apply Forall_cons in Hstack as [Ht _]. lia.
  - induction stack as [|t stack IHs].
    + exists 0, []. split; [intros accum; by rewrite app_nil_r|].
      intros d. split; [by intros ?%elem_of_nil|].
      by intros (t & ?%elem_of_nil & _).
    + apply Forall_cons in Hstack as [Ht Hstack].
      destruct (IHs Hstack) as (f2 & e2 & Hrun2 & Hmem2).
      destruct (IHn (reverse (get_foreign_keys t))) as (f1 & e1 & Hrun1 & Hmem1).
      { apply Forall_forall. intros d Hd. rewrite elem_of_reverse in Hd.
        specialize (Hrank t d Hd). lia. }
      exists (S (f1 + f2)), (get_foreign_keys t ++ e1 ++ e2). split.
      * intros accum. cbn [dependencies_loop]. rewrite unseen_filter.
        rewrite (dependencies_loop_app f1 _ _ _ f2 _ _ (Hrun1 _) (Hrun2 _)).
        by rewrite <- !app_assoc.
      * intros d. rewrite !elem_of_app, Hmem1, Hmem2. split.
        -- intros [Hd|[(t' & Ht' & Htc)|(t' & Ht' & Htc)]].
           ++ exists t. split; [left|]. by apply tc_once.
           ++ exists t. split; [left|]. rewrite elem_of_reverse in Ht'.
              by eapply tc_l.
           ++ exists t'. split; [by right|done].
        -- intros (t' & [->|Ht']%elem_of_cons & Htc).
           ++ apply references_unfold in Htc as [Hd|(t'' & Ht'' & Htc)];
                [by left|right; left].
              exists t''. split; [by rewrite elem_of_reverse|done].
           ++ right. right. by exists t'.
Qed.

(** X13.  [get_table_dependencies] does not terminate on a table from
    which a chain of foreign keys leads into a cycle, such as a table with
    a foreign key to itself: [seen] stays empty, so no amount of work
    empties the stack. *)
Theorem dependencies_of_a_cycle_diverge (P : string → Prop)
    (table : string) :
  (∀ t, P t → ∃ d, d ∈ get_foreign_keys t ∧ P d) →
  P table →
  ∀ fuel, get_table_dependencies get_foreign_keys fuel table = None.
Proof.
  intros Hstep Ht fuel. unfold get_table_dependencies.
  apply (dependencies_loop_diverges P Hstep).
  exists table. split; [left|done].
Qed.

(** X14.  When the foreign keys form no cycle (every key leads to a table
    of smaller rank), [get_table_dependencies] terminates and returns
    exactly the tables that a chain of foreign keys reaches from the given
    one. *)
Theorem dependencies_without_cycle (rank : string → nat) (table : string) :
  (∀ t d, d ∈ get_foreign_keys t → rank d < rank t) →
  ∃ fuel res,
    get_table_dependencies get_foreign_keys fuel table = Some res
    ∧ ∀ d, d ∈ res ↔ tc (references get_foreign_keys) table d.
Proof.
  intros Hrank.
  destruct (dependencies_loop_terminates rank Hrank (S (rank table)) [table])
    as (fuel & extra & Hrun & Hmem).
  { apply Forall_singleton. lia. }
  exists fuel, extra. split; [apply (Hrun [])|].
  intros d. rewrite Hmem. split.
  - by intros (t & ->%list_elem_of_singleton & Htc).
  - intros Htc. exists table. split; [left|done].
Qed.

End dependencies.

Section dependencies_examples.
Import DataSet.

(** A table of categories, each with a foreign key to its parent. *)
Lemma dependencies_of_a_cycle_diverge_witness :
  let get_foreign_keys : string → list string :=
    λ t, if String.eqb t "category" then ["category"] else [] in
  get_table_dependencies get_foreign_keys 1000 "category" = None.
Proof.
  intros gfk.
  apply (dependencies_of_a_cycle_diverge gfk (λ t, t = "category")).
  - intros t ->. exists "category". split; [|done].
    apply list_elem_of_here.
  - reflexivity.
Defined.

(** Orders refer to users and to products, products to vendors. *)
Lemma dependencies_without_cycle_witness :
  let get_foreign_keys : string → list string :=
    λ t, if String.eqb t "order" then ["user"; "product"]
         else if String.eqb t "product" then ["vendor"] else [] in
  ∃ fuel res,
    get_table_dependencies get_foreign_keys fuel "order" = Some res
    ∧ ∀ d, d ∈ res ↔ tc (references get_foreign_keys) "order" d.
Proof.
  intros gfk.
  apply (dependencies_without_cycle gfk
           (λ t, if String.eqb t "order" then 2
                 else if String.eqb t "product" then 1 else 0)).
  intros t d. unfold gfk.
  destruct (String.eqb_spec t "order") as [->|_].
  - intros Hd. repeat (apply elem_of_cons in Hd as [->|Hd]; [simpl; lia|]).
    by apply elem_of_nil in Hd.
  - destruct (String.eqb_spec t "product") as [->|_].
    + intros Hd. repeat (apply elem_of_cons in Hd as [->|Hd]; [simpl; lia|]).
      by apply elem_of_nil in Hd.
    + by intros ?%elem_of_nil.
Defined.

End dependencies_examples.

(** ** LaTeX escaping loses nothing *)

Section latex_injective.
Import LATEXFormat.

(** A character is one of the ten reserved ones, or it is copied and is
    not a backslash. *)
Lemma reserved_or_plain (c : ascii) :
  (TEX_RESERVED_SYMBOLS_RE c = false ∧ c ≠ "\"%char)
  ∨ c ∈ TEX_RESERVED_SYMBOLS_MAP.*1.
Proof.
  destruct (TEX_RESERVED_SYMBOLS_RE c) eqn:Hre.
  - right. unfold TEX_RESERVED_SYMBOLS_RE in Hre.
    apply existsb_exists in Hre as (k & Hk & Heq).
    apply Ascii.eqb_eq in Heq as ->. by apply list_elem_of_In.
  - left. split; [done|]. intros ->. by vm_compute in Hre.
Qed.

(** The escaped forms of two characters never start the same text. *)
Lemma escaped_char_inj (c1 c2 : ascii) (e1 e2 : string) :
  (if TEX_RESERVED_SYMBOLS_RE c1 then replace c1 else String c1 "") +:+ e1
  = (if TEX_RESERVED_SYMBOLS_RE c2 then replace c2 else String c2 "") +:+ e2 →
  c1 = c2 ∧ e1 = e2.
Proof.
  destruct (reserved_or_plain c1) as [[Hp1 Hb1]|Hr1],
           (reserved_or_plain c2) as [[Hp2 Hb2]|Hr2].
  - rewrite Hp1, Hp2. intros H. by injection H.
  - rewrite Hp1. rewrite reserved_symbols in Hr2.
    repeat (apply elem_of_cons in Hr2 as [->|Hr2];
            [intros H; vm_compute in H; by injection H|]).
    by apply elem_of_nil in Hr2.
  - rewrite Hp2. rewrite reserved_symbols in Hr1.
    repeat (apply elem_of_cons in Hr1 as [->|Hr1];
            [intros H; vm_compute in H; by injection H|]).
    by apply elem_of_nil in Hr1.
  - rewrite reserved_symbols in Hr1, Hr2.
    repeat (apply elem_of_cons in Hr1 as [->|Hr1];
            [repeat (apply elem_of_cons in Hr2 as [->|Hr2];
                     [intros H; vm_compute in H; by simplify_eq|]);
             by apply elem_of_nil in Hr2|]).
    by apply elem_of_nil in Hr1.
Qed.

Lemma escaped_char_nonempty (c : ascii) (e : string) :
  (if TEX_RESERVED_SYMBOLS_RE c then replace c else String c "") +:+ e ≠ "".
Proof.
  destruct (reserved_or_plain c) as [[Hp _]|Hr].
  - by rewrite Hp.
  - rewrite reserved_symbols in Hr.
    repeat (apply elem_of_cons in Hr as [->|Hr]; [by vm_compute|]).
    by apply elem_of_nil in Hr.
Qed.

(** X15.  Escaping is injective: two texts with the same escaped form are
    the same text, so the LaTeX export never merges two different
    cells. *)
Theorem escape_tex_injective (s1 s2 : string) :
  _escape_tex_reserved_symbols s1 = _escape_tex_reserved_symbols s2 →
  s1 = s2.
Proof.
  revert s2. induction s1 as [|c1 s1 IH]; intros [|c2 s2] Heq.
  - done.
  - cbn [_escape_tex_reserved_symbols] in Heq. symmetry in Heq.
    by apply escaped_char_nonempty in Heq.
  - cbn [_escape_tex_reserved_symbols] in Heq.
    by apply escaped_char_nonempty in Heq.
  - cbn [_escape_tex_reserved_symbols] in Heq.
    apply escaped_char_inj in Heq as [-> Heq]. f_equal. by apply IH.
Qed.

Lemma escape_tex_injective_witness :
  _escape_tex_reserved_symbols "a_b" = "a\_b" ∧ "a_b" = "a_b".
Proof.
  split; [reflexivity|].
  apply (escape_tex_injective "a_b" "a_b"). reflexivity.
Defined.

End latex_injective.

(** ** Export followed by import *)

Section round_trips.
Import DataTable.

(** The import of a CSV input whose first record is a non-empty header. *)
Lemma csv_import_with_header (d : DataTable.t) (h : list string)
    (rs : list (list string)) :
  h ≠ [] →
  CSVFormat.import_set (h :: rs) true d =
    (if forallb (λ r, Nat.leb (length r) (length h)) rs
     then Ok tt else Raise invalid_dimensions,
     {| title := title d; headers := Some h;
        _data := stored (length h)
                   <$> filter (λ r, r ≠ []) (accepted (length h) rs) |}).
Proof.
  intros Hh. unfold CSVFormat.import_set, bind at 1, wipe, modify.
  cbn [CSVFormat.import_rows]. unfold bind at 1.
  cbn [CSVFormat.import_row Nat.eqb andb]. unfold set_headers, _validate.
  destruct h as [|c h]; [done|]. cbn [width _data headers Nat.eqb].
  rewrite (import_rows_run true (length (c :: h))).
  all: cbn [width _data headers title length]; try lia; done.
Qed.

(** Records that all have the width [w > 0] are all reached, none is
    empty and none is padded. *)
Lemma uniform_records (w : nat) (rs : list (list string)) :
  0 < w → Forall (λ r, length r = w) rs →
  forallb (λ r, Nat.leb (length r) w) rs = true
  ∧ stored w <$> filter (λ r, r ≠ []) (accepted w rs)
    = (λ r, mkRow (VStr <$> r) []) <$> rs.
Proof.
  intros Hw. induction 1 as [|r rs Hr _ [IHb IHs]]; [done|].
  cbn [forallb accepted]. rewrite Hr, Nat.leb_refl. split; [done|].
  rewrite filter_cons_True by (intros ->; simpl in Hr; lia).
  csimpl. rewrite IHs. unfold stored at 1. rewrite padded_full by lia. done.
Qed.

(** X16.  CSV export followed by CSV import.  For a table with a
    non-empty header whose rows are as wide as the header, importing the
    records that the export writes, each value as the field written for
    it, gives the header back and, row for row, the text of each value;
    the tags are gone.  A table of untagged rows of strings comes back as
    it was (under the title of the target). *)
Theorem csv_export_then_import (d d0 : DataTable.t) (h : list string) :
  headers d = Some h → h ≠ [] →
  Forall (λ r, length (values r) = length h) (_data d) →
  CSVFormat.import_set
    (read_back (CSVFormat.export_stream_set d)) true d0
  = (Ok tt,
     {| title := title d0; headers := Some h;
        _data := (λ r, mkRow (VStr <$> (CSVFormat.written_field <$> values r))
                         []) <$> _data d |})
  ∧ (Forall (λ r, tags r = [] ∧ Forall (λ v, ∃ s, v = VStr s) (values r))
       (_data d) →
     (CSVFormat.import_set
        (read_back (CSVFormat.export_stream_set d))
        true d0).2 = retitle (title d0) d).
Proof.
  intros Hh Hne Hwide.
  assert (Hrun : CSVFormat.import_set
    (read_back (CSVFormat.export_stream_set d)) true d0
    = (Ok tt,
       {| title := title d0; headers := Some h;
          _data := (λ r, mkRow (VStr <$> (CSVFormat.written_field <$> values r))
                           []) <$> _data d |})).
  { unfold read_back, CSVFormat.export_stream_set, _package_lists. rewrite Hh.
    rewrite fmap_cons, <- !list_fmap_compose.
    rewrite (list_fmap_ext _ id h), list_fmap_id by done.
    rewrite (csv_import_with_header d0 h) by done.
    destruct (uniform_records (length h)
                ((λ r : Row, CSVFormat.written_field <$> values r)
                   <$> _data d))
      as [Hb Hs].
    - destruct h; [done|simpl; lia].
    - apply Forall_fmap. eapply Forall_impl; [exact Hwide|].
      intros r Hr. simpl. by rewrite length_fmap.
    - change ((λ record : list value, CSVFormat.written_field <$> record)
                ∘ values)
        with (λ r : Row, CSVFormat.written_field <$> values r).
      rewrite Hb, Hs. by rewrite <- list_fmap_compose. }
  split; [done|]. intros Hstr. rewrite Hrun. cbn [snd].
  unfold retitle. rewrite Hh. f_equal.
  rewrite <- (list_fmap_id (_data d)) at 2. apply list_fmap_ext.
  intros i [vs ts] Hi. rewrite Forall_lookup in Hstr.
  destruct (Hstr i _ Hi) as [Ht Hv]. simpl in *. subst ts. f_equal.
  rewrite <- list_fmap_compose. rewrite <- (list_fmap_id vs) at 2.
  apply list_fmap_ext. intros j v Hj. rewrite Forall_lookup in Hv.
  by destruct (Hv j v Hj) as [s ->].
Qed.

Lemma csv_export_then_import_witness :
  let d := {| title := "t"; headers := Some ["name"; "age"];
              _data := [mkRow [VStr "Jeff"; VInt 26] ["old"];
                        mkRow [VStr "Al"; VNone] []] |} in
  CSVFormat.import_set
    (read_back (CSVFormat.export_stream_set d)) true
    DataTable.empty
  = (Ok tt, {| title := ""; headers := Some ["name"; "age"];
               _data := [mkRow [VStr "Jeff"; VStr "26"] [];
                         mkRow [VStr "Al"; VStr ""] []] |}).
Proof.
  intros d.
  assert (Hh : headers d = Some ["name"; "age"]) by reflexivity.
  assert (Hne : ["name"; "age"] ≠ @nil string) by discriminate.
  assert (Hwide : Forall (λ r, length (values r) = length ["name"; "age"])
                    (_data d)).
  { repeat constructor. }
  destruct (csv_export_then_import d DataTable.empty _ Hh Hne Hwide)
    as [Hrun _].
  etrans; [exact Hrun|]. reflexivity.
Defined.

Lemma map_is_fmap {A B} (f : A → B) (l : list A) : map f l = f <$> l.
Proof. induction l as [|a l IH]; [done|]. csimpl. by f_equal. Qed.

(** Rows of the table's width are all appended. *)
Lemma append_all_uniform (w : nat) (rows : list (list value)) : ∀ d,
  0 < w → width d = w → Forall (λ r, length r = w) rows →
  append_all rows d =
    (Ok tt, {| title := title d; headers := headers d;
               _data := _data d ++ ((λ r, mkRow r []) <$> rows) |}).
Proof.
  induction rows as [|row rows IH]; intros d Hw Hd Hall.
  - simpl. unfold ret. rewrite app_nil_r. by destruct d.
  - apply Forall_cons in Hall as [Hrow Hall].
    cbn [append_all]. unfold bind at 1, append.
    assert (Hv : _validate row d = true).
    { unfold _validate. destruct row as [|v row]; [simpl in Hrow; lia|].
      rewrite Hd. destruct (Nat.eqb_spec w 0); [lia|].
      by apply Nat.eqb_eq. }
    rewrite Hv, IH; [|done| |done].
    + csimpl. by rewrite <- app_assoc.
    + by apply width_after_row.
Qed.

(** X17.  JSON export followed by JSON import (and the same for YAML
    import).  For a table with non-empty, distinct headers and at least
    one row, all rows as wide as the headers, importing the document that
    the export serialises gives the headers and the rows back, without
    the tags.  A table without rows comes back without its headers. *)
Theorem json_export_then_import (d d0 : DataTable.t) (h : list string)
    (in_stream : string) :
  headers d = Some h → NoDup h → h ≠ [] →
  Forall (λ r, length (values r) = length h) (_data d) →
  let load : string → py_result document :=
    λ _, Ok (JSONFormat.export_set d) in
  (_data d ≠ [] →
   JSONFormat.import_set load in_stream d0
   = (Ok tt, {| title := title d0; headers := Some h;
                _data := untagged <$> _data d |}))
  ∧ (_data d = [] →
     JSONFormat.import_set load in_stream d0
     = (Ok tt, {| title := title d0; headers := None; _data := [] |})).
Proof.
  intros Hh Hnd Hne Hwide load. unfold JSONFormat.import_set, load.
  unfold bind at 1, wipe, modify. unfold bind at 1, lift.
  unfold JSONFormat.export_set, dict. rewrite Hh, map_is_fmap. split.
  - intros Hrows.
    assert (Hvals : (λ r : list (string * value), r.*2)
                      <$> ((λ r, zip h (values r)) <$> _data d)
                    = values <$> _data d).
    { rewrite <- list_fmap_compose. apply list_fmap_ext.
      intros i r Hi. simpl. apply snd_zip.
      rewrite Forall_lookup in Hwide. rewrite (Hwide i r Hi). lia. }
    destruct (_data d) as [|r0 rest] eqn:Hd; [done|].
    clear Hrows. rewrite fmap_cons in *. cbn [set_dict].
    unfold bind at 1, wipe, modify. unfold bind at 1, set_headers.
    apply Forall_cons in Hwide as [Hr0 Hrest].
    rewrite fst_zip by lia.
    assert (Hv : _validate h {| title := title d0; headers := None;
                                _data := [] |} = true)
      by (destruct h; done).
    cbn [title headers _data]. rewrite Hv.
    assert (Hh' : match h with [] => None | _ => Some h end = Some h)
      by (destruct h; done).
    rewrite Hh'.
    rewrite Hvals.
    rewrite (append_all_uniform (length h)).
    + cbn [title headers _data app]. do 2 f_equal.
      rewrite <- list_fmap_compose. by apply list_fmap_ext.
    + destruct h; [done|simpl; lia].
    + destruct h; [done|reflexivity].
    + apply Forall_fmap. by apply Forall_cons.
  - intros ->. reflexivity.
Qed.

Lemma json_export_then_import_witness :
  let d := {| title := "t"; headers := Some ["name"; "age"];
              _data := [mkRow [VStr "Jeff"; VInt 26] ["old"]] |} in
  JSONFormat.import_set (λ _, Ok (JSONFormat.export_set d)) "" DataTable.empty
  = (Ok tt, {| title := ""; headers := Some ["name"; "age"];
               _data := [mkRow [VStr "Jeff"; VInt 26] []] |}).
Proof.
  intros d.
  assert (Hh : headers d = Some ["name"; "age"]) by reflexivity.
  assert (Hnd : NoDup ["name"; "age"]).
  { apply (bool_decide_unpack _). vm_compute. exact I. }
  assert (Hne : ["name"; "age"] ≠ @nil string) by discriminate.
  assert (Hwide : Forall (λ r, length (values r) = length ["name"; "age"])
                    (_data d)).
  { repeat constructor. }
  destruct (json_export_then_import d DataTable.empty _ "" Hh Hnd Hne Hwide)
    as [Hrun _].
  etrans; [apply Hrun; discriminate|]. reflexivity.
Defined.

End round_trips.

(** ** The columns that an insertion creates *)

Section guessed_columns.
Import Table.



End guessed_columns.

(** ** Fields beyond the header *)

Section long_records.
Import Table CSVImporter.
Variable python_value : Field → value → py_result value.

Lemma strict_header_fields_bound cols keys : ∀ start idx hf,
  (idx, hf) ∈ strict_header_fields cols start keys →
  idx < start + length keys.
Proof.
  induction keys as [|key keys IH]; intros start idx hf Hin.
  - by apply elem_of_nil in Hin.
  - cbn [strict_header_fields] in Hin.
    destruct (cols !! key).
    + apply elem_of_cons in Hin as [[= -> _]|Hin]; [simpl; lia|].
      apply IH in Hin. simpl. lia.
    + apply IH in Hin. simpl. lia.
Qed.

Lemma enumerate_keys_bound keys idx hf :
  (idx, hf) ∈ enumerate_keys keys → idx < length keys.
Proof.
  unfold enumerate_keys. intros Hin.
  apply elem_of_lookup_imap_1 in Hin as (i & key & [= -> _] & Hi).
  by apply lookup_lt_Some in Hi.
Qed.

(** The row object depends on the fields under the header only. *)
Lemma csv_obj_take n hfs row : ∀ obj,
  (∀ idx hf, (idx, hf) ∈ hfs → idx < n) →
  csv_obj python_value hfs (take n row) obj
  = csv_obj python_value hfs row obj.
Proof.
  induction hfs as [|[idx hf] hfs IH]; intros obj Hb; [done|].
  cbn [csv_obj].
  rewrite lookup_take_lt by (apply (Hb idx hf); left).
  destruct (row !! idx) as [c|]; [|done].
  assert (Hb' : ∀ idx' hf', (idx', hf') ∈ hfs → idx' < n)
    by (intros ???; eapply Hb; by right).
  destruct hf as [field|key].
  - destruct (python_value field (VStr c)); simpl; [by apply IH|done].
  - by apply IH.
Qed.

Lemma csv_load_rows_take n hfs reader : ∀ count tb,
  (∀ idx hf, (idx, hf) ∈ hfs → idx < n) →
  load_rows python_value hfs (take n <$> reader) count tb
  = load_rows python_value hfs reader count tb.
Proof.
  induction reader as [|row reader IH]; intros count tb Hb; [done|].
  rewrite fmap_cons. cbn [load_rows]. unfold bind, lift.
  rewrite csv_obj_take by done.
  destruct (csv_obj _ _ _ _) as [obj|e]; [|done].
  destruct (insert obj tb) as [[pk|e] tb1]; [by apply IH|done].
Qed.

(** X19.  [CSVImporter.load] ignores the fields of a record beyond the
    width of the header: cutting every record down to the header's width
    changes neither the outcome nor the table. *)
Theorem csv_load_ignores_extra_fields (strict : bool)
    (header_keys : list string) (records : list (list string))
    (tb : Table.t) :
  load python_value strict
    (header_keys :: (take (length header_keys) <$> records)) true tb
  = load python_value strict (header_keys :: records) true tb.
Proof.
  unfold load, bind, gets.
  destruct (if strict then _ else _) as [|hf hfs] eqn:Hhf; [done|].
  apply csv_load_rows_take. intros idx hf' Hin. rewrite <- Hhf in Hin.
  destruct strict.
  - by apply strict_header_fields_bound in Hin.
  - by apply enumerate_keys_bound in Hin.
Qed.

End long_records.

(** ** What strict mode keeps of a row *)

Section strict_values.
Variable python_value : Field → value → py_result value.

Lemma strict_obj_lookup cols items : ∀ obj0 obj,
  named cols → NoDup (items.*1) →
  JSONImporter.strict_obj python_value cols items obj0 = Ok obj →
  (∀ k, obj !! k =
        match cols !! k, (list_to_map items : gmap string value) !! k with
        | Some f, Some x =>
            match python_value f x with Ok v => Some v | Raise _ => None end
        | _, _ => obj0 !! k
        end)
  ∧ (∀ k f x, cols !! k = Some f → (k, x) ∈ items →
       ∃ v, python_value f x = Ok v).
Proof.
  induction items as [|[key x] items IH]; intros obj0 obj Hnamed Hnd Hrun.
  - injection Hrun as <-. split.
    + intros k. cbn [list_to_map foldr]. rewrite lookup_empty.
      by destruct (cols !! k).
    + intros k f x _ Hin. by apply elem_of_nil in Hin.
  - cbn [fmap list_fmap fst] in Hnd. apply NoDup_cons in Hnd as [Hkey Hnd].
    cbn [JSONImporter.strict_obj] in Hrun.
    assert (Hrest : (list_to_map items : gmap string value) !! key = None)
      by by apply not_elem_of_list_to_map_1.
    destruct (cols !! key) as [field|] eqn:Hcol.
    + destruct (python_value field x) as [p|e] eqn:Hp; [|done].
      simpl in Hrun. rewrite (Hnamed _ _ Hcol) in Hrun.
      destruct (IH _ _ Hnamed Hnd Hrun) as [Hlk Hok]. split.
      * intros k. rewrite Hlk. cbn [list_to_map foldr].
        destruct (decide (k = key)) as [->|Hne].
        -- rewrite Hcol, Hrest, !lookup_insert_eq. cbn. by rewrite Hp.
        -- by rewrite !(lookup_insert_ne _ key k) by done.
      * intros k f x' Hk [[= -> ->]|Hin]%elem_of_cons; [|by eapply Hok].
        rewrite Hcol in Hk. injection Hk as <-. eauto.
    + destruct (IH _ _ Hnamed Hnd Hrun) as [Hlk Hok]. split.
      * intros k. rewrite Hlk. cbn [list_to_map foldr].
        destruct (decide (k = key)) as [->|Hne].
        -- by rewrite Hcol.
        -- by rewrite (lookup_insert_ne _ key k) by done.
      * intros k f x' Hk [[= -> ->]|Hin]%elem_of_cons; [|by eapply Hok].
        congruence.
Qed.

(** X20.  In strict mode [JSONImporter.load] passes every value that it
    keeps through the field's [python_value]: the object inserted for a
    row holds, under each key of the row that is a column, the converted
    value, and nothing else; it is only made when every such conversion
    succeeds. *)
Theorem strict_row_is_converted (tb : Table.t) (row obj : gmap string value) :
  JSONImporter.strict_obj python_value (Importer.columns tb)
    (map_to_list row) ∅ = Ok obj →
  (∀ k v, obj !! k = Some v ↔
          ∃ f x, Importer.columns tb !! k = Some f ∧ row !! k = Some x
                 ∧ python_value f x = Ok v)
  ∧ (∀ k f x, Importer.columns tb !! k = Some f → row !! k = Some x →
       ∃ v, python_value f x = Ok v).
Proof.
  intros Hrun.
  apply strict_obj_lookup in Hrun as [Hlk Hok];
    [|apply named_columns|apply NoDup_fst_map_to_list].
  rewrite list_to_map_to_list in Hlk. split.
  - intros k v. rewrite Hlk, lookup_empty. split.
    + destruct (Importer.columns tb !! k) as [f|]; [|done].
      destruct (row !! k) as [x|]; [|done].
      destruct (python_value f x) as [v'|e] eqn:Hp; [|done].
      intros [= <-]. eauto.
    + intros (f & x & -> & -> & ->). done.
  - intros k f x Hk Hx. eapply Hok; [done|].
    by apply elem_of_map_to_list.
Qed.

End strict_values.

Section strict_values_example.
Import Table.

Lemma strict_row_is_converted_witness :
  let python_value : Field → value → py_result value :=
    λ f v, match fclass f, v with
           | TextField, VInt _ => Ok (VStr "7")
           | _, _ => Ok v
           end in
  let tb := (insert {[ "name" := VStr "Jeff" ]} (create "users")).2 in
  let row : gmap string value := {[ "name" := VInt 7; "extra" := VInt 1 ]} in
  ∃ f x, Importer.columns tb !! "name" = Some f ∧ row !! "name" = Some x
         ∧ python_value f x = Ok (VStr "7").
Proof.
  intros pv tb row.
  pose (obj := ({[ "name" := VStr "7" ]} : gmap string value)).
  assert (Hrun : JSONImporter.strict_obj pv (Importer.columns tb)
                   (map_to_list row) ∅ = Ok obj)
    by (vm_compute; reflexivity).
  destruct (strict_row_is_converted pv tb row obj Hrun) as [Hlk _].
  apply Hlk. vm_compute. reflexivity.
Defined.

End strict_values_example.
